(** * simple-xcm: a shallow embedding of [simplexcm.ts]

    The development follows [src/packages/simple-xcm/simplexcm.ts]:
    the [SimpleXcm] class (version enforcement, named-location resolution,
    amount conversion, fee estimation wrapper, backend selection), the two
    transfer backends and [prepareTransferParams].

    Conventions.
    - A JavaScript [bigint] is a [Z]; a non-negative [bigint] counter such
      as [parents] is a [nat].  An [XcmVersion] is a [nat].
    - A function that may [throw] returns a [Result]; code that talks to the
      chain runs in the monad [M], which threads the trace of network
      interactions and keeps it when an exception is thrown.
    - The asset vector of a [PreparedTransferParams] owns its entries; the
      handle [feeAnyAssetRef] is the position of the aliased entry, so a
      write through the handle is a write into the vector. *)

From Stdlib Require Import ZArith QArith String Ascii List Lia.
From stdpp Require Import base option list strings pretty gmap.

(** ** JavaScript primitives *)

Module Js.
Local Open Scope Z_scope.

(** Splitting at a one-character separator, [String.prototype.split]. *)
Fixpoint split (sep : ascii) (s : string) : list string :=
  match s with
  | EmptyString => [EmptyString]
  | String c r =>
      if Ascii.eqb c sep then EmptyString :: split sep r
      else match split sep r with
           | h :: t => String c h :: t
           | [] => [String c EmptyString]
           end
  end.

Fixpoint repeatChar (n : nat) (c : ascii) : string :=
  match n with
  | O => EmptyString
  | S k => String c (repeatChar k c)
  end.

(** [s.padEnd(n, c)] for a one-character filler: a string that is already
    [n] long or longer is returned as it is. *)
Definition padEnd (s : string) (n : nat) (c : ascii) : string :=
  (s ++ repeatChar (n - String.length s) c)%string.

(** [\d]: the ten ASCII digits. *)
Definition isDigit (c : ascii) : bool :=
  ((48 <=? N_of_ascii c) && (N_of_ascii c <=? 57))%N.

(** [[1-9]] *)
Definition isNonZeroDigit (c : ascii) : bool :=
  ((49 <=? N_of_ascii c) && (N_of_ascii c <=? 57))%N.

Definition digitValue (c : ascii) : Z := Z.of_N (N_of_ascii c) - 48.

(** [BigInt(s)] on the strings this program passes to it, which are runs of
    decimal digits: the value read in base ten, leading zeros allowed, and
    [0n] for the empty string.  Any other character is answered [None], the
    [SyntaxError] of the original. *)
Fixpoint bigIntAcc (acc : Z) (s : string) : option Z :=
  match s with
  | EmptyString => Some acc
  | String c r => if isDigit c then bigIntAcc (10 * acc + digitValue c) r else None
  end.

Definition BigInt (s : string) : option Z := bigIntAcc 0 s.

(** [Number.isSafeInteger] on an integral number. *)
Definition isSafeInteger (n : Z) : bool :=
  (- (2 ^ 53 - 1) <=? n) && (n <=? 2 ^ 53 - 1).

End Js.

(** ** Errors and outcomes of fallible code *)

Inductive HopError : Type :=
  | TooExpensiveFeeError (missingAmount : Z)
  | OtherHopError (description : string).

Inductive Error : Type :=
  | ErrVersionNotSupported (requested supported : nat)
  | ErrUnknownNamedLocation (lookup : string)
  | ErrInvalidAmountFormat
  | ErrIncorrectDecimals
  | ErrDecimalPartTooLong (actual : nat) (decimals : Z)
  | ErrNoTransferBackend (chain : string)
  | ErrNoLocationToAccountApi (chain : string)
  | ErrCannotConvertLocation (chain detail : string)
  | ErrFeeAssetNotInTransfer (chain : string)
  | ErrBeneficiaryNotInterior (parents : nat)
  | ErrAscendsAboveRoot
  | ErrUnsupportedAtVersion (version : nat)
  | ErrFeeEstimationErrors (errors : list HopError)
  | ErrTypeError
  | ErrSyntaxError
  | ErrCollaborator (description : string).

Inductive Result (A : Type) : Type :=
  | Ok (a : A)
  | Throw (e : Error).
Arguments Ok {A} a.
Arguments Throw {A} e.

Definition rbind {A B} (r : Result A) (k : A -> Result B) : Result B :=
  match r with
  | Ok a => k a
  | Throw e => Throw e
  end.

Definition check (o : option Error) : Result unit :=
  match o with
  | None => Ok tt
  | Some e => Throw e
  end.

Fixpoint rmap {A B} (f : A -> Result B) (l : list A) : Result (list B) :=
  match l with
  | [] => Ok []
  | x :: r => rbind (f x) (fun y => rbind (rmap f r) (fun ys => Ok (y :: ys)))
  end.

(** The text of the messages the source builds for the errors it throws
    itself; the errors of its collaborators and of the runtime carry theirs. *)
Definition errorMessage (e : Error) : option string :=
  match e with
  | ErrVersionNotSupported requested supported =>
      Some ("The requested XCM version " ++ pretty requested
              ++ " is greater than the chain supports (= " ++ pretty supported ++ ")")%string
  | ErrUnknownNamedLocation lookup =>
      Some (lookup ++ ": unknown named location")%string
  | ErrInvalidAmountFormat =>
      Some "convertFungibleAmount: invalid amount format. Must be an integer or decimal number."%string
  | ErrIncorrectDecimals =>
      Some "convertFungibleAmount: decimals value is incorrect. Expected an integer between 1 and 38"%string
  | ErrDecimalPartTooLong actual decimals =>
      Some ("convertFungibleAmount: the fungible amount's decimal part length ("
              ++ pretty actual ++ ") is greater than the currency decimals ("
              ++ pretty decimals ++ ")")%string
  | ErrNoTransferBackend chain =>
      Some (chain ++ ": No known XCM transfer backend pallet is found")%string
  | ErrNoLocationToAccountApi chain =>
      Some (chain ++ " doesn't implement locationToAccount Runtime API")%string
  | ErrCannotConvertLocation chain detail =>
      Some (chain ++ ": can't convert location to an account ID - " ++ detail)%string
  | ErrFeeAssetNotInTransfer chain =>
      Some (chain ++ ": failed to compose transfer, the fee asset isn't part of the transfer (a temporary limitation, see README)")%string
  | ErrBeneficiaryNotInterior parents =>
      Some ("
        The beneficiary must be an interior location (parents = 0) when using the XTokens backend.
        The actual parents = " ++ pretty parents ++ "
      ")%string
  | _ => None
  end.

(** ** [#convertFungibleAmount] *)

Module Amount.
Import Js.
Local Open Scope Z_scope.

(** [\d+$] *)
Fixpoint allDigits (s : string) : bool :=
  match s with
  | EmptyString => true
  | String c r => isDigit c && allDigits r
  end.

Definition digits1 (s : string) : bool :=
  match s with
  | EmptyString => false
  | String _ _ => allDigits s
  end.

(** [(\.\d+)?$] *)
Definition optFraction (s : string) : bool :=
  match s with
  | EmptyString => true
  | String c r => Ascii.eqb c "."%char && digits1 r
  end.

(** [\d*(\.\d+)?$]: the greedy run of digits ends at the first character
    that is not a digit, and no shorter run can match since a digit is
    neither a dot nor the end of the input. *)
Fixpoint digitsThenFraction (s : string) : bool :=
  match s with
  | EmptyString => true
  | String c r => if isDigit c then digitsThenFraction r else optFraction s
  end.

(** [/^(0(\.\d+)?|[1-9]\d*(\.\d+)?)$/.test(s)] *)
Definition numberRegEx_test (s : string) : bool :=
  match s with
  | EmptyString => false
  | String c r =>
      if Ascii.eqb c "0"%char then optFraction r
      else if isNonZeroDigit c then digitsThenFraction r
      else false
  end.

(** [decimals] is a TypeScript [number]; the model ranges over its integral
    values, every other number being refused by [Number.isSafeInteger] the
    way an integer outside [0..38] is. *)
Definition convertFungibleAmount (amount : string) (decimals : Z) : Result Z :=
  if negb (numberRegEx_test amount) then Throw ErrInvalidAmountFormat
  else
    let parts := split "."%char amount in
    let integerPart := nth 0 parts EmptyString in
    let decimalPart := nth 1 parts EmptyString in
    if negb (isSafeInteger decimals) || (decimals <? 0) || (38 <? decimals)
    then Throw ErrIncorrectDecimals
    else
      let paddedDecimalPart := padEnd decimalPart (Z.to_nat decimals) "0"%char in
      if Z.of_nat (String.length paddedDecimalPart) >? decimals
      then Throw (ErrDecimalPartTooLong (String.length paddedDecimalPart) decimals)
      else match BigInt (integerPart ++ paddedDecimalPart) with
           | Some v => Ok v
           | None => Throw ErrSyntaxError
           end.

(** The number a decimal numeral denotes, read off the numeral itself:
    the digits before the dot count units, the digits after it count
    tenths, hundredths and so on. *)
Fixpoint fractionValue (s : string) : Q :=
  match s with
  | EmptyString => 0
  | String c r => (inject_Z (digitValue c) + fractionValue r) / 10
  end.

Fixpoint numeralValueFrom (acc : Z) (s : string) : Q :=
  match s with
  | EmptyString => inject_Z acc
  | String c r =>
      if Ascii.eqb c "."%char then inject_Z acc + fractionValue r
      else numeralValueFrom (10 * acc + digitValue c) r
  end.

Definition numeralValue (s : string) : Q := numeralValueFrom 0 s.

(** What follows the integer part of a well-formed amount: nothing, or a
    dot and the digits [f] of the decimal part. *)
Definition fractionOf (rest f : string) : Prop :=
  (rest = EmptyString /\ f = EmptyString)
  \/ (rest = String "."%char f /\ f <> EmptyString /\ allDigits f = true).

(** The integer a run of digits denotes when [acc] has been read before. *)
Fixpoint digitsValueFrom (acc : Z) (s : string) : Z :=
  match s with
  | EmptyString => acc
  | String c r => digitsValueFrom (10 * acc + digitValue c) r
  end.

End Amount.

(** [XcmVersion], a small number. *)
Definition XcmVersion := nat.

(** ** Data model

    Modelled from the spec: the package [@open-xcm-tools/xcm-types] is not
    part of the sources at hand, so the value types follow the data model
    of the specification: a junction is one step of an interior path, an
    interior location is a sequence of junctions, a location pairs a count
    of ascension steps with an interior location, an asset pairs an asset
    id (a location) with its fungibility, and a versioned value is a value
    tagged with a protocol version. *)

Inductive Junction : Type :=
  | Parachain (id : N)
  | PalletInstance (index : N)
  | GeneralIndex (index : N)
  | GeneralKey (data : string)
  | AccountId32 (network : option string) (id : string)
  | GlobalConsensus (network : string).

Definition InteriorLocation := list Junction.

Record Location : Type := mkLocation {
  parents : nat;
  interior : InteriorLocation
}.

Definition AssetId := Location.

Inductive Fungibility : Type :=
  | Fungible (amount : Z)
  | NonFungible (instance : string).

Record Asset : Type := mkAsset {
  id : AssetId;
  fun_ : Fungibility
}.

Record VersionedLocation : Type := mkVersionedLocation {
  vl_version : XcmVersion;
  vl_location : Location
}.

Record VersionedAssets : Type := mkVersionedAssets {
  va_version : XcmVersion;
  va_assets : list Asset
}.

Inductive Origin : Type :=
  | SystemSigned (account : string)
  | OtherOrigin (description : string).

#[global] Instance Junction_eq_dec : EqDecision Junction.
Proof. solve_decision. Defined.
#[global] Instance Location_eq_dec : EqDecision Location.
Proof. solve_decision. Defined.
#[global] Instance Fungibility_eq_dec : EqDecision Fungibility.
Proof. solve_decision. Defined.
#[global] Instance Asset_eq_dec : EqDecision Asset.
Proof. solve_decision. Defined.

(** Lookups: what a caller may pass before resolution, a name to be found
    in the registry or a location written out ([LocationLookup] and
    [AssetIdLookup] of the source). *)
Inductive Lookup : Type :=
  | Named (name : string)
  | Given (location : Location).

Record AssetLookup : Type := mkAssetLookup {
  al_id : Lookup;
  al_fun : Fungibility
}.

Inductive OriginLookup : Type :=
  | OriginNamed (name : string)
  | OriginGiven (origin : Origin).

(** [TransferParams] *)
Record TransferParams : Type := mkTransferParams {
  tp_origin : OriginLookup;
  tp_assets : list AssetLookup;
  tp_feeAssetId : Lookup;
  tp_destination : Lookup;
  tp_beneficiary : Lookup
}.

(** [PreparedTransferParams].  [feeAnyAssetRef] is the handle of the entry
    of [assets] that the backends write through. *)
Record PreparedTransferParams : Type := mkPrepared {
  origin : Origin;
  assets : VersionedAssets;
  feeAssetId : AssetId;
  feeAssetIndex : nat;
  feeAnyAssetRef : nat;
  destination : Location;
  beneficiary : Location
}.

(** ** Collaborators *)

(** The registry of [./registry], through the two methods the resolver
    calls. *)
Record Registry : Type := mkRegistry {
  universalLocation : string -> option InteriorLocation;
  relativeLocation : string -> option Location
}.

Record ChainIdentity : Type := mkChainIdentity {
  name : string;
  ci_universalLocation : InteriorLocation
}.

(** The helpers of [@open-xcm-tools/xcm-util] and [./main-utils] whose
    sources are not at hand and whose result no definition below depends
    on beyond success or failure are taken as parameters. *)
Class XcmUtil : Type := {
  sanitizeLookup : Location -> option Error;
  sanitizeInterior : InteriorLocation -> option Error;
  sanitizeTransferParams : TransferParams -> option Error;
  prepareAssetsForEncoding : XcmVersion -> list Asset -> Result VersionedAssets;
  versionSupports : XcmVersion -> Location -> bool;
  palletApiTxName : string -> string
}.

(** Transactions built through [api.tx].  The arguments are encoded when
    the transaction is built, so a transaction holds the asset vector as it
    was at that moment. *)
Inductive WeightLimit : Type := Unlimited.

Inductive Tx : Type :=
  | TransferAssets (pallet : string) (dest ben : VersionedLocation)
      (assets : VersionedAssets) (feeAssetItem : nat) (weightLimit : WeightLimit)
  | TransferMultiassets (pallet : string) (assets : VersionedAssets)
      (feeItem : nat) (dest : VersionedLocation) (weightLimit : WeightLimit).

Definition txDestination (t : Tx) : VersionedLocation :=
  match t with
  | TransferAssets _ dest _ _ _ _ => dest
  | TransferMultiassets _ _ _ dest _ => dest
  end.

(** What [estimator.estimateExtrinsicFees] does: it resolves to a fee, or
    throws an aggregate of per-hop errors, or throws something else. *)
Inductive EstimatorOutcome : Type :=
  | Estimated (fees : Z)
  | ThrowsFeeEstimationErrors (errors : list HopError)
  | ThrowsOther (e : Error).

(** The connected chain.  [tx] maps a pallet to the names of its
    extrinsics, [pallets] lists the runtime names of [metadata.pallets],
    [locationToAccountApi] is the runtime API when the chain exposes it.
    The estimator's answer may change from one call to the next, so it
    takes the number of calls made before. *)
Record Api : Type := mkApi {
  tx : gmap string (list string);
  pallets : list string;
  locationToAccountApi : option (VersionedLocation -> string + string);
  estimateExtrinsicFees : nat -> Origin -> Tx -> AssetId -> EstimatorOutcome;
  dryRunExtrinsic : Origin -> Tx -> option Error
}.

Record SimpleXcm : Type := mkSimpleXcm {
  api : Api;
  registry : Registry;
  chainInfo : ChainIdentity;
  palletXcm : string;
  estimator_xcmVersion : XcmVersion;
  xcmVersion : XcmVersion
}.

(** ** The [SimpleXcm] instance: version enforcement *)

(** [enforceXcmVersion]: the outcome and the instance afterwards. *)
Definition enforceXcmVersion (version : XcmVersion) (this : SimpleXcm)
  : Result unit * SimpleXcm :=
  if (estimator_xcmVersion this <? version)%nat
  then (Throw (ErrVersionNotSupported version (estimator_xcmVersion this)), this)
  else (Ok tt,
        {| api := api this; registry := registry this;
           chainInfo := chainInfo this; palletXcm := palletXcm this;
           estimator_xcmVersion := estimator_xcmVersion this;
           xcmVersion := version |}).

(** ** Location resolver *)

(** Arguments of the resolver: [LocationLookup] is a name or a location,
    and [resolveRelativeLocation] also takes a bare interior location. *)
Inductive LocationLookupArg : Type :=
  | OfInterior (junctions : InteriorLocation)
  | OfLookup (lookup : Lookup).

Inductive InteriorLocationLookup : Type :=
  | InteriorNamed (name : string)
  | InteriorGiven (junctions : InteriorLocation).

Fixpoint commonPrefixLength (a b : InteriorLocation) : nat :=
  match a, b with
  | x :: a', y :: b' =>
      if decide (x = y) then S (commonPrefixLength a' b') else 0
  | _, _ => 0
  end.

(** Modelled from the spec: [locationRelativeToPrefix] of xcm-util is not
    at hand.  The longest common leading run of junctions of the location
    and the prefix is found; [parents] is the prefix length less that run,
    and the interior is what the location has after it. *)
Definition locationRelativeToPrefix (location prefix : InteriorLocation)
  : Location :=
  let common := commonPrefixLength location prefix in
  {| parents := length prefix - common; interior := drop common location |}.

(** Modelled from the spec: [relativeLocationToUniversal] of xcm-util is not
    at hand.  The last [parents] junctions of the context are dropped and
    the relative interior is appended; it fails when [parents] exceeds the
    length of the context. *)
Definition relativeLocationToUniversal (relativeLocation : Location)
    (context : InteriorLocation) : Result InteriorLocation :=
  if (length context <? parents relativeLocation)%nat
  then Throw ErrAscendsAboveRoot
  else Ok (take (length context - parents relativeLocation) context
             ++ interior relativeLocation).

(** Modelled from the spec: [convertLocationVersion] and
    [convertAssetIdVersion] of xcm-util are not at hand.  The value is
    tagged with the version, and the conversion fails when the value uses a
    feature the version does not have. *)
Definition convertLocationVersion `{XcmUtil} (version : XcmVersion)
    (location : Location) : Result VersionedLocation :=
  if versionSupports version location
  then Ok {| vl_version := version; vl_location := location |}
  else Throw (ErrUnsupportedAtVersion version).

Definition VersionedAssetId := VersionedLocation.

Definition convertAssetIdVersion `{XcmUtil} (version : XcmVersion)
    (assetId : AssetId) : Result VersionedAssetId :=
  convertLocationVersion version assetId.

(** Modelled from the spec: [toJunctions] and [location] of xcm-util are not
    at hand.  An interior location is its sequence of junctions, and
    [location] builds the location of given [parents] and junctions. *)
Definition toJunctions (interior : InteriorLocation) : list Junction := interior.

Definition location (parents : nat) (junctions : list Junction) : Location :=
  {| parents := parents; interior := junctions |}.

(** Modelled from the spec: [findFeeAssetById] of xcm-estimate is not at
    hand.  The fee asset is located in the canonical vector by equality of
    ids; the answer is the entry itself, as a handle, with its index. *)
Definition findFeeAssetById (feeAssetId : VersionedAssetId)
    (assets : VersionedAssets) : option (nat * nat) :=
  match list_find (fun a => id a = vl_location feeAssetId) (va_assets assets) with
  | Some (i, _) => Some (i, i)
  | None => None
  end.

Section Resolver.
Context `{XcmUtil}.

Definition resolveRelativeLocation (this : SimpleXcm) (lookup : LocationLookupArg)
  : Result Location :=
  match lookup with
  | OfLookup (Named key) =>
      match universalLocation (registry this) key with
      | Some universal =>
          Ok (locationRelativeToPrefix universal
                (ci_universalLocation (chainInfo this)))
      | None =>
          match relativeLocation (registry this) key with
          | Some relative => Ok relative
          | None => Throw (ErrUnknownNamedLocation key)
          end
      end
  | OfLookup (Given l) =>
      rbind (check (sanitizeLookup l)) (fun _ => Ok l)
  | OfInterior i =>
      rbind (check (sanitizeInterior i)) (fun _ =>
        Ok (locationRelativeToPrefix i (ci_universalLocation (chainInfo this))))
  end.

Definition resolveUniversalLocation (this : SimpleXcm)
    (lookup : InteriorLocationLookup) : Result InteriorLocation :=
  match lookup with
  | InteriorNamed key =>
      match universalLocation (registry this) key with
      | Some universal => Ok universal
      | None =>
          match relativeLocation (registry this) key with
          | Some relative =>
              relativeLocationToUniversal relative
                (ci_universalLocation (chainInfo this))
          | None => Throw (ErrUnknownNamedLocation key)
          end
      end
  | InteriorGiven i =>
      rbind (check (sanitizeInterior i)) (fun _ => Ok i)
  end.

Definition resolveRelativeAsset (this : SimpleXcm) (lookup : AssetLookup)
  : Result Asset :=
  rbind (resolveRelativeLocation this (OfLookup (al_id lookup))) (fun l =>
    Ok {| id := l; fun_ := al_fun lookup |}).

End Resolver.

(** ** Network interactions *)

(** One entry per call that leaves the process: the location-to-account
    runtime call, a fee estimation (which dry-runs the transaction) and the
    final dry run. *)
Inductive Event : Type :=
  | ConvertLocationCall (versionedLocation : VersionedLocation)
  | EstimateFeesCall (origin : Origin) (xt : Tx) (feeAssetId : AssetId)
  | DryRunCall (origin : Origin) (xt : Tx).

Definition Trace := list Event.

Definition isEstimateCall (e : Event) : bool :=
  match e with
  | EstimateFeesCall _ _ _ => true
  | _ => false
  end.

Definition estimateCalls (w : Trace) : nat := length (List.filter isEstimateCall w).

(** Code that awaits the chain: it starts from the trace so far and leaves
    the trace extended, whether it returns or throws. *)
Definition M (A : Type) : Type := Trace -> Result A * Trace.

Definition ret {A} (a : A) : M A := fun w => (Ok a, w).

Definition throw {A} (e : Error) : M A := fun w => (Throw e, w).

Definition bind {A B} (m : M A) (k : A -> M B) : M B :=
  fun w =>
    match m w with
    | (Ok a, w') => k a w'
    | (Throw e, w') => (Throw e, w')
    end.

Definition lift {A} (r : Result A) : M A := fun w => (r, w).

Definition emit (e : Event) : M unit := fun w => (Ok tt, w ++ [e]).

Notation "'let*' x ':=' m 'in' k" := (bind m (fun x => k))
  (at level 10, x name, m at level 100, k at level 200).

(** What [tryEstimateExtrinsicXcmFees] resolves to: [{value}] or
    [{error: TooExpensiveFeeError}]. *)
Inductive FeeEstimate : Type :=
  | EstValue (value : Z)
  | EstError (missingAmount : Z).

(** The sub-errors that are instances of [TooExpensiveFeeError], each by its
    [missingAmount]. *)
Definition tooExpensiveErrors (errors : list HopError) : list Z :=
  omap (fun e => match e with
                 | TooExpensiveFeeError missing => Some missing
                 | OtherHopError _ => None
                 end) errors.

(** The total the specification speaks of: the missing amounts of the
    too-expensive sub-failures of an aggregate, added up. *)
Fixpoint totalMissing (errors : list HopError) : Z :=
  match errors with
  | [] => 0%Z
  | TooExpensiveFeeError missing :: rest => (missing + totalMissing rest)%Z
  | OtherHopError _ :: rest => totalMissing rest
  end.

Definition isTooExpensive (e : HopError) : Prop :=
  exists missing, e = TooExpensiveFeeError missing.

Definition tryEstimateExtrinsicXcmFees (this : SimpleXcm) (origin : Origin)
    (xt : Tx) (feeAssetId : AssetId) : M FeeEstimate :=
  fun w =>
    let w' := w ++ [EstimateFeesCall origin xt feeAssetId] in
    match estimateExtrinsicFees (api this) (estimateCalls w) origin xt feeAssetId with
    | Estimated estimatedFees => (Ok (EstValue estimatedFees), w')
    | ThrowsFeeEstimationErrors errors =>
        let tooExpensive := tooExpensiveErrors errors in
        if (0 <? length tooExpensive)%nat
        then
          let totalValue := fold_left (fun sum missing => (sum + missing)%Z) tooExpensive 0%Z in
          (Ok (EstError totalValue), w')
        else (Throw (ErrFeeEstimationErrors errors), w')
    | ThrowsOther e => (Throw e, w')
    end.

Section Transfer.
Context `{XcmUtil}.

(** [locationToAccountId] on a location: the part of the method after the
    test for a name. *)
Definition locationToAccountId_location (this : SimpleXcm) (lookup : Location)
  : M string :=
  match locationToAccountApi (api this) with
  | None => throw (ErrNoLocationToAccountApi (name (chainInfo this)))
  | Some convertLocation =>
      let* _ := lift (check (sanitizeLookup lookup)) in
      let versionedLocation := {| vl_version := 4; vl_location := lookup |} in
      let* _ := emit (ConvertLocationCall versionedLocation) in
      match convertLocation versionedLocation with
      | inr err =>
          throw (ErrCannotConvertLocation (name (chainInfo this)) err)
      | inl hex => ret hex
      end
  end.

(** [locationToAccountId]: a name is resolved and the method calls itself
    on the location found. *)
Definition locationToAccountId (this : SimpleXcm) (lookup : Lookup) : M string :=
  match locationToAccountApi (api this) with
  | None => throw (ErrNoLocationToAccountApi (name (chainInfo this)))
  | Some _ =>
      match lookup with
      | Named _ =>
          let* accountLocation := lift (resolveRelativeLocation this (OfLookup lookup)) in
          locationToAccountId_location this accountLocation
      | Given l => locationToAccountId_location this l
      end
  end.

(** The values [prepareTransferParams] has in hand when it looks for the
    fee asset (lines 611 to 643 of the source). *)
Record ResolvedTransfer : Type := mkResolved {
  r_origin : Origin;
  r_destination : Location;
  r_beneficiary : Location;
  r_feeAssetId : AssetId;
  r_assets : VersionedAssets;
  r_convertedFeeAssetId : VersionedAssetId
}.

Definition resolveTransferParams (simpleXcm : SimpleXcm)
    (transferParams : TransferParams) : M ResolvedTransfer :=
  let* origin :=
    match tp_origin transferParams with
    | OriginNamed key =>
        let* account := locationToAccountId simpleXcm (Named key) in
        ret (SystemSigned account)
    | OriginGiven o => ret o
    end in
  let* _ := lift (check (sanitizeTransferParams transferParams)) in
  let* destination :=
    lift (resolveRelativeLocation simpleXcm (OfLookup (tp_destination transferParams))) in
  let* beneficiary :=
    lift (resolveRelativeLocation simpleXcm (OfLookup (tp_beneficiary transferParams))) in
  let* feeAssetId :=
    lift (resolveRelativeLocation simpleXcm (OfLookup (tp_feeAssetId transferParams))) in
  let* resolvedAssets :=
    lift (rmap (resolveRelativeAsset simpleXcm) (tp_assets transferParams)) in
  let* assets :=
    lift (prepareAssetsForEncoding (xcmVersion simpleXcm) resolvedAssets) in
  let* convertedFeeAssetId :=
    lift (convertAssetIdVersion (xcmVersion simpleXcm) feeAssetId) in
  ret {| r_origin := origin; r_destination := destination;
         r_beneficiary := beneficiary; r_feeAssetId := feeAssetId;
         r_assets := assets; r_convertedFeeAssetId := convertedFeeAssetId |}.

Definition prepareTransferParams (simpleXcm : SimpleXcm)
    (transferParams : TransferParams) : M PreparedTransferParams :=
  let* r := resolveTransferParams simpleXcm transferParams in
  match findFeeAssetById (r_convertedFeeAssetId r) (r_assets r) with
  | None => throw (ErrFeeAssetNotInTransfer (name (chainInfo simpleXcm)))
  | Some (feeAnyAsset, feeAssetIndex) =>
      ret {| origin := r_origin r;
             assets := r_assets r;
             feeAssetId := r_feeAssetId r;
             feeAssetIndex := feeAssetIndex;
             feeAnyAssetRef := feeAnyAsset;
             destination := r_destination r;
             beneficiary := r_beneficiary r |}
  end.

(** *** Writing through the fee-asset handle *)

Definition feeAnyAsset (p : PreparedTransferParams) : option Asset :=
  va_assets (assets p) !! feeAnyAssetRef p.

(** The store after [feeAnyAssetRef.fun.fungible = v]: the entry behind
    the handle has its amount replaced, and it is the vector's entry. *)
Definition setFeeFungible (v : Z) (p : PreparedTransferParams)
  : PreparedTransferParams :=
  {| origin := origin p;
     assets :=
       {| va_version := va_version (assets p);
          va_assets :=
            alter (fun a => {| id := id a; fun_ := Fungible v |})
              (feeAnyAssetRef p) (va_assets (assets p)) |};
     feeAssetId := feeAssetId p;
     feeAssetIndex := feeAssetIndex p;
     feeAnyAssetRef := feeAnyAssetRef p;
     destination := destination p;
     beneficiary := beneficiary p |}.

(** [feeAnyAssetRef.fun.fungible += x].  On an entry without a [fungible]
    field the sum of [undefined] and a [bigint] is a [TypeError], thrown
    before anything is written. *)
Definition addToFeeFungible (x : Z) (p : PreparedTransferParams)
  : Result PreparedTransferParams :=
  match feeAnyAsset p with
  | Some a =>
      match fun_ a with
      | Fungible v => Ok (setFeeFungible (v + x)%Z p)
      | NonFungible _ => Throw ErrTypeError
      end
  | None => Throw ErrTypeError
  end.

(** *** The pallet-xcm backend *)

(** [palletXcm.transferAssets(destination, beneficiary, assets,
    feeAssetIndex, 'Unlimited')], the call that builds the candidate
    transaction of a round and the final transaction alike. *)
Definition transferAssetsTx (this : SimpleXcm)
    (destination beneficiary : VersionedLocation)
    (preparedParams : PreparedTransferParams) : Tx :=
  TransferAssets (palletXcm this) destination beneficiary
    (assets preparedParams) (feeAssetIndex preparedParams) Unlimited.

(** The [do ... while] of [PalletXcmBackend.composeTransfer], at most
    [fuel] rounds of it: [None] when the rounds are used up, and in every
    case the prepared parameters and the trace as the loop left them. *)
Fixpoint feeLoop (fuel : nat) (this : SimpleXcm)
    (destination beneficiary : VersionedLocation)
    (preparedParams : PreparedTransferParams) (w : Trace)
  : option (Result unit) * PreparedTransferParams * Trace :=
  match fuel with
  | O => (None, preparedParams, w)
  | S fuel' =>
      let txToDryRun := transferAssetsTx this destination beneficiary preparedParams in
      match tryEstimateExtrinsicXcmFees this (origin preparedParams)
              txToDryRun (feeAssetId preparedParams) w with
      | (Throw e, w') => (Some (Throw e), preparedParams, w')
      | (Ok (EstError missingAmount), w') =>
          match feeAnyAsset preparedParams with
          | None => (Some (Throw ErrTypeError), preparedParams, w')
          | Some a =>
              match fun_ a with
              | Fungible v =>
                  feeLoop fuel' this destination beneficiary
                    (setFeeFungible (v + missingAmount)%Z preparedParams) w'
              | NonFungible _ =>
                  feeLoop fuel' this destination beneficiary preparedParams w'
              end
          end
      | (Ok (EstValue value), w') =>
          match addToFeeFungible value preparedParams with
          | Ok p' => (Some (Ok tt), p', w')
          | Throw e => (Some (Throw e), preparedParams, w')
          end
      end
  end.

(** The estimator's answers along a run of the loop that starts with the
    fee amount [v]: asked about the successive candidates, it reports the
    shortfalls [shortfalls] one after the other and then the fee [value]. *)
Fixpoint answers (this : SimpleXcm) (destination beneficiary : VersionedLocation)
    (p : PreparedTransferParams) (v : Z) (shortfalls : list Z) (value : Z)
    (w : Trace) : Prop :=
  let r := tryEstimateExtrinsicXcmFees this (origin p)
             (transferAssetsTx this destination beneficiary (setFeeFungible v p))
             (feeAssetId p) w in
  match shortfalls with
  | [] => fst r = Ok (EstValue value)
  | missing :: rest =>
      fst r = Ok (EstError missing)
      /\ answers this destination beneficiary p (v + missing)%Z rest value (snd r)
  end.

(** The estimation calls of such a run: one per shortfall and one for the
    fee, each about the candidate built with the amount reached so far. *)
Fixpoint estimationCalls (this : SimpleXcm) (destination beneficiary : VersionedLocation)
    (p : PreparedTransferParams) (v : Z) (shortfalls : list Z) : list Event :=
  EstimateFeesCall (origin p)
    (transferAssetsTx this destination beneficiary (setFeeFungible v p))
    (feeAssetId p)
  :: match shortfalls with
     | [] => []
     | missing :: rest =>
         estimationCalls this destination beneficiary p (v + missing)%Z rest
     end.

Definition sumZ (l : list Z) : Z := fold_right Z.add 0%Z l.

Definition PalletXcmBackend_composeTransfer (fuel : nat) (this : SimpleXcm)
    (transferParams : TransferParams) (w : Trace) : option (Result Tx) * Trace :=
  let prologue :=
    let* preparedParams := prepareTransferParams this transferParams in
    let* destination :=
      lift (convertLocationVersion (xcmVersion this) (destination preparedParams)) in
    let* beneficiary :=
      lift (convertLocationVersion (xcmVersion this) (beneficiary preparedParams)) in
    ret (preparedParams, destination, beneficiary) in
  match prologue w with
  | (Throw e, w1) => (Some (Throw e), w1)
  | (Ok (preparedParams, destination, beneficiary), w1) =>
      match feeLoop fuel this destination beneficiary preparedParams w1 with
      | (None, _, w2) => (None, w2)
      | (Some (Throw e), _, w2) => (Some (Throw e), w2)
      | (Some (Ok _), preparedParams', w2) =>
          let tx := transferAssetsTx this destination beneficiary preparedParams' in
          let w3 := w2 ++ [DryRunCall (origin preparedParams') tx] in
          match dryRunExtrinsic (api this) (origin preparedParams') tx with
          | Some e => (Some (Throw e), w3)
          | None => (Some (Ok tx), w3)
          end
      end
  end.

(** *** The xTokens backend *)

(** [api.tx[pallet][extrinsic](...)]: the extrinsic about to be called.
    Reading a property of a pallet that [api.tx] does not have, or calling
    an extrinsic that the pallet does not have, is a [TypeError]. *)
Definition extrinsicOf (this : SimpleXcm) (pallet extrinsic : string)
  : Result unit :=
  match tx (api this) !! pallet with
  | Some extrinsics =>
      if bool_decide (extrinsic ∈ extrinsics) then Ok tt else Throw ErrTypeError
  | None => Throw ErrTypeError
  end.

Definition XTokensBackend_composeTransfer (this : SimpleXcm)
    (transferParams : TransferParams) : M Tx :=
  let* preparedParams := prepareTransferParams this transferParams in
  if negb (parents (beneficiary preparedParams) =? 0)%nat
  then throw (ErrBeneficiaryNotInterior (parents (beneficiary preparedParams)))
  else
    let beneficiaryJunctions := toJunctions (interior (beneficiary preparedParams)) in
    let destinationJunctions := toJunctions (interior (destination preparedParams)) in
    let destinationBeneficiary :=
      location (parents (destination preparedParams))
        (destinationJunctions ++ beneficiaryJunctions) in
    let* destination :=
      lift (convertLocationVersion (xcmVersion this) destinationBeneficiary) in
    let* _ := lift (extrinsicOf this "xTokens" "transferMultiassets") in
    let txToDryRun :=
      TransferMultiassets "xTokens" (assets preparedParams)
        (feeAssetIndex preparedParams) destination Unlimited in
    let* estimatedFees :=
      tryEstimateExtrinsicXcmFees this (origin preparedParams) txToDryRun
        (feeAssetId preparedParams) in
    let* preparedParams' :=
      match estimatedFees with
      | EstValue value => lift (addToFeeFungible value preparedParams)
      | EstError _ => ret preparedParams
      end in
    ret (TransferMultiassets "xTokens" (assets preparedParams')
           (feeAssetIndex preparedParams') destination Unlimited).

(** *** Backend selection *)

Inductive Backend : Type :=
  | PalletXcmBackend
  | XTokensBackend.

(** One round of the [for ... of] over the pallets: [palletName] is
    assigned, and the [switch] on it has the [default] case only, its
    [xTokens] case being commented out, so [backend] stays as it was.
    The two [console.warn] notices of the method are not modelled. *)
Definition scanPallet (state : option string * option Backend) (pallet : string)
  : option string * option Backend :=
  let '(_, backend) := state in
  let palletName := palletApiTxName pallet in
  (Some palletName, backend).

Definition transferBackend (this : SimpleXcm) : Result Backend :=
  match tx (api this) !! palletXcm this with
  | None => Throw ErrTypeError
  | Some extrinsics =>
      if bool_decide ("transferAssets"%string ∈ extrinsics)
      then Ok PalletXcmBackend
      else
        let '(palletName, backend) :=
          fold_left scanPallet (pallets (api this)) (None, None) in
        match backend with
        | Some b => Ok b
        | None => Throw (ErrNoTransferBackend (name (chainInfo this)))
        end
  end.

Definition composeTransfer (fuel : nat) (this : SimpleXcm)
    (transferParams : TransferParams) (w : Trace) : option (Result Tx) * Trace :=
  match transferBackend this with
  | Throw e => (Some (Throw e), w)
  | Ok PalletXcmBackend => PalletXcmBackend_composeTransfer fuel this transferParams w
  | Ok XTokensBackend =>
      let '(r, w') := XTokensBackend_composeTransfer this transferParams w in
      (Some r, w')
  end.

End Transfer.

(** ** A reference instance of the collaborators

    Modelled from the spec: the sanitizers of [./main-utils] and xcm-util
    and the canonicalizer of xcm-util are not at hand.  This instance
    follows sections 4.1, 4.3 and 4.4 of the specification and is what the
    concrete runs below are evaluated with; the general statements hold for
    every instance. *)
Module Reference.

Definition junctionKind (j : Junction) : N :=
  match j with
  | Parachain _ => 0
  | PalletInstance _ => 1
  | GeneralIndex _ => 2
  | GeneralKey _ => 3
  | AccountId32 _ _ => 4
  | GlobalConsensus _ => 5
  end.

Definition thenCompare (c : comparison) (d : comparison) : comparison :=
  match c with
  | Eq => d
  | _ => c
  end.

Definition compareOption (o1 o2 : option string) : comparison :=
  match o1, o2 with
  | None, None => Eq
  | None, Some _ => Lt
  | Some _, None => Gt
  | Some a, Some b => String.compare a b
  end.

Definition compareJunction (a b : Junction) : comparison :=
  match a, b with
  | Parachain x, Parachain y => N.compare x y
  | PalletInstance x, PalletInstance y => N.compare x y
  | GeneralIndex x, GeneralIndex y => N.compare x y
  | GeneralKey x, GeneralKey y => String.compare x y
  | AccountId32 n x, AccountId32 m y =>
      thenCompare (compareOption n m) (String.compare x y)
  | GlobalConsensus x, GlobalConsensus y => String.compare x y
  | _, _ => N.compare (junctionKind a) (junctionKind b)
  end.

Fixpoint compareInteriorLocation (a b : InteriorLocation) : comparison :=
  match a, b with
  | [], [] => Eq
  | [], _ :: _ => Lt
  | _ :: _, [] => Gt
  | x :: a', y :: b' =>
      thenCompare (compareJunction x y) (compareInteriorLocation a' b')
  end.

Definition compareLocation (a b : Location) : comparison :=
  thenCompare (Nat.compare (parents a) (parents b))
    (compareInteriorLocation (interior a) (interior b)).

Definition compareAsset (a b : Asset) : comparison :=
  compareLocation (id a) (id b).

(** Stable insertion: an entry goes after the entries that compare equal. *)
Fixpoint insertAsset (a : Asset) (sorted : list Asset) : list Asset :=
  match sorted with
  | [] => [a]
  | b :: rest =>
      match compareAsset a b with
      | Lt => a :: sorted
      | _ => b :: insertAsset a rest
      end
  end.

Definition sortAssets (l : list Asset) : list Asset :=
  fold_left (fun sorted a => insertAsset a sorted) l [].

(** Merging of neighbours with the same id: fungible amounts are summed,
    and a fungible entry next to a non-fungible one is refused. *)
Fixpoint deduplicate (l : list Asset) : Result (list Asset) :=
  match l with
  | [] => Ok []
  | a :: rest =>
      rbind (deduplicate rest) (fun merged =>
        match merged with
        | b :: tail =>
            match compareAsset a b, fun_ a, fun_ b with
            | Eq, Fungible x, Fungible y =>
                Ok ({| id := id a; fun_ := Fungible (x + y) |} :: tail)
            | Eq, NonFungible _, NonFungible _ => Ok (a :: merged)
            | Eq, _, _ => Throw (ErrCollaborator "conflicting fungibility")
            | _, _, _ => Ok (a :: merged)
            end
        | [] => Ok [a]
        end)
  end.

Definition sortAndDeduplicateAssets (l : list Asset) : Result (list Asset) :=
  deduplicate (sortAssets l).

Definition tooManyJunctions (i : InteriorLocation) : option Error :=
  if (8 <? length i)%nat then Some (ErrCollaborator "too many junctions") else None.

Definition sanitizeNamedOrGiven (l : Lookup) : option Error :=
  match l with
  | Named _ => None
  | Given loc => tooManyJunctions (interior loc)
  end.

Definition firstError (checks : list (option Error)) : option Error :=
  fold_right (fun c rest => match c with Some e => Some e | None => rest end)
    None checks.

Definition sanitizeTransfer (t : TransferParams) : option Error :=
  match tp_assets t with
  | [] => Some (ErrCollaborator "assets list is empty")
  | _ :: _ =>
      firstError
        (sanitizeNamedOrGiven (tp_destination t)
           :: sanitizeNamedOrGiven (tp_beneficiary t)
           :: sanitizeNamedOrGiven (tp_feeAssetId t)
           :: map (fun a => sanitizeNamedOrGiven (al_id a)) (tp_assets t))
  end.

Definition lowerFirst (s : string) : string :=
  match s with
  | EmptyString => EmptyString
  | String c r =>
      let n := N_of_ascii c in
      if ((65 <=? n) && (n <=? 90))%N then String (ascii_of_N (n + 32)) r else s
  end.

#[export] Instance util : XcmUtil := {|
  sanitizeLookup := fun l => tooManyJunctions (interior l);
  sanitizeInterior := tooManyJunctions;
  sanitizeTransferParams := sanitizeTransfer;
  prepareAssetsForEncoding := fun version l =>
    rbind (sortAndDeduplicateAssets l) (fun sorted =>
      Ok {| va_version := version; va_assets := sorted |});
  versionSupports := fun _ _ => true;
  palletApiTxName := lowerFirst
|}.

End Reference.

(** ** Concrete chains and requests used in the runs below *)

Module Scenario.
Import Reference.

Definition polkadot : Junction := GlobalConsensus "polkadot".

Definition knownLocations : Registry := {|
  universalLocation := fun key =>
    if String.eqb key "AssetHub" then Some [polkadot; Parachain 1000]
    else if String.eqb key "DOT" then Some [polkadot]
    else None;
  relativeLocation := fun key =>
    if String.eqb key "Alice"
    then Some {| parents := 0; interior := [AccountId32 None "alice"] |}
    else None
|}.

Definition unique : ChainIdentity := {|
  name := "Unique";
  ci_universalLocation := [polkadot; Parachain 2037]
|}.

(** An estimator that answers by the number of calls made before it:
    the entries of [script] in turn, and [Estimated 0] after the last. *)
Definition scripted (script : list EstimatorOutcome)
  : nat -> Origin -> Tx -> AssetId -> EstimatorOutcome :=
  fun n _ _ _ => nth n script (Estimated 0).

Definition chain (extrinsics : list string) (palletNames : list string)
    (script : list EstimatorOutcome) : Api := {|
  tx := {[ "polkadotXcm"%string := extrinsics ]};
  pallets := palletNames;
  locationToAccountApi := Some (fun _ => inl "0xa11ce"%string);
  estimateExtrinsicFees := scripted script;
  dryRunExtrinsic := fun _ _ => None
|}.

Definition connected (a : Api) : SimpleXcm := {|
  api := a;
  registry := knownLocations;
  chainInfo := unique;
  palletXcm := "polkadotXcm";
  estimator_xcmVersion := 4;
  xcmVersion := 4
|}.

Definition shortfalls320 : list EstimatorOutcome :=
  [ ThrowsFeeEstimationErrors [TooExpensiveFeeError 3];
    ThrowsFeeEstimationErrors [TooExpensiveFeeError 2];
    Estimated 0 ].

Definition primary : SimpleXcm :=
  connected (chain ["transferAssets"%string] ["System"; "PolkadotXcm"]%string shortfalls320).

Definition withXTokens : SimpleXcm :=
  connected (chain ["send"%string] ["System"; "PolkadotXcm"; "XTokens"]%string shortfalls320).

(** A chain whose transaction API has the [xTokens] pallet with its
    [transferMultiassets] extrinsic. *)
Definition onXTokens : SimpleXcm :=
  connected {|
    tx := <[ "xTokens"%string := ["transfer"; "transferMultiassets"]%string ]>
            {[ "polkadotXcm"%string := ["send"%string] ]};
    pallets := ["System"; "PolkadotXcm"; "XTokens"]%string;
    locationToAccountApi := Some (fun _ => inl "0xa11ce"%string);
    estimateExtrinsicFees := scripted shortfalls320;
    dryRunExtrinsic := fun _ _ => None
  |}.

Definition dot : Location := {| parents := 1; interior := [] |}.

Definition usdt : Location :=
  {| parents := 1; interior := [Parachain 1000; PalletInstance 50; GeneralIndex 1984] |}.

Definition request : TransferParams := {|
  tp_origin := OriginNamed "Alice";
  tp_assets :=
    [ {| al_id := Given usdt; al_fun := Fungible 70 |};
      {| al_id := Named "DOT"; al_fun := Fungible 10 |} ];
  tp_feeAssetId := Named "DOT";
  tp_destination := Named "AssetHub";
  tp_beneficiary := Given {| parents := 0; interior := [AccountId32 None "bob"] |}
|}.

Definition requestWithoutAssets : TransferParams := {|
  tp_origin := OriginNamed "Alice";
  tp_assets := [];
  tp_feeAssetId := Named "DOT";
  tp_destination := Named "AssetHub";
  tp_beneficiary := Given {| parents := 0; interior := [AccountId32 None "bob"] |}
|}.

Definition requestWithoutAssetsSigned : TransferParams := {|
  tp_origin := OriginGiven (SystemSigned "0xa11ce");
  tp_assets := [];
  tp_feeAssetId := Named "DOT";
  tp_destination := Named "AssetHub";
  tp_beneficiary := Given {| parents := 0; interior := [AccountId32 None "bob"] |}
|}.

Definition requestFeeNotTransferred : TransferParams := {|
  tp_origin := OriginGiven (SystemSigned "0xa11ce");
  tp_assets := [ {| al_id := Given usdt; al_fun := Fungible 70 |} ];
  tp_feeAssetId := Named "DOT";
  tp_destination := Named "AssetHub";
  tp_beneficiary := Given {| parents := 0; interior := [AccountId32 None "bob"] |}
|}.

Definition requestBeneficiaryAbove : TransferParams := {|
  tp_origin := OriginGiven (SystemSigned "0xa11ce");
  tp_assets := [ {| al_id := Named "DOT"; al_fun := Fungible 10 |} ];
  tp_feeAssetId := Named "DOT";
  tp_destination := Named "AssetHub";
  tp_beneficiary := Given {| parents := 1; interior := [AccountId32 None "bob"] |}
|}.

(** What [prepareTransferParams] returns for [request]. *)
Definition prepared : PreparedTransferParams := {|
  origin := SystemSigned "0xa11ce";
  assets := {| va_version := 4;
               va_assets := [ {| id := dot; fun_ := Fungible 10 |};
                              {| id := usdt; fun_ := Fungible 70 |} ] |};
  feeAssetId := dot;
  feeAssetIndex := 0;
  feeAnyAssetRef := 0;
  destination := {| parents := 1; interior := [Parachain 1000] |};
  beneficiary := {| parents := 0; interior := [AccountId32 None "bob"] |}
|}.

Definition toAssetHub : VersionedLocation :=
  {| vl_version := 4; vl_location := {| parents := 1; interior := [Parachain 1000] |} |}.

Definition toBob : VersionedLocation :=
  {| vl_version := 4;
     vl_location := {| parents := 0; interior := [AccountId32 None "bob"] |} |}.

End Scenario.


(** ** The rest of the [SimpleXcm] class *)

(** The private constructor (lines 161 to 174): the instance starts with
    the estimator's version as its active version. *)
Definition newSimpleXcm (apiPromise : Api) (knownRegistry : Registry)
    (identity : ChainIdentity) (palletXcmName : string)
    (estimatorVersion : XcmVersion) : SimpleXcm :=
  {| api := apiPromise;
     registry := knownRegistry;
     chainInfo := identity;
     palletXcm := palletXcmName;
     estimator_xcmVersion := estimatorVersion;
     xcmVersion := estimatorVersion |}.

(** What [adjustedFungible] asks of its collaborators: [sanitizeLookup] on
    an asset id given as a name, and the [decimals] of the currency the
    registry knows under a symbol or at a universal location.  Their sources
    ([./registry], xcm-util) are not at hand, so they are parameters; each
    may throw. *)
Class CurrencyLookup : Type := {
  sanitizeLookupName : string -> option Error;
  currencyDecimalsBySymbol : string -> Result Z;
  currencyDecimalsByUniversalLocation : InteriorLocation -> Result Z
}.

Section Adjusted.
Context `{XcmUtil} `{CurrencyLookup}.

(** The [decimals] that [adjustedFungible] reads for an asset id. *)
Definition currencyDecimals (this : SimpleXcm) (assetId : Lookup) : Result Z :=
  match assetId with
  | Named symbol => currencyDecimalsBySymbol symbol
  | Given l =>
      rbind (relativeLocationToUniversal l (ci_universalLocation (chainInfo this)))
        (fun currencyUniversalLocation =>
           currencyDecimalsByUniversalLocation currencyUniversalLocation)
  end.

(** [adjustedFungible] (lines 121 to 144). *)
Definition adjustedFungible (this : SimpleXcm) (assetId : Lookup) (amount : string)
  : Result AssetLookup :=
  rbind (check (match assetId with
                | Named symbol => sanitizeLookupName symbol
                | Given l => sanitizeLookup l
                end)) (fun _ =>
  rbind (currencyDecimals this assetId) (fun decimals =>
  rbind (Amount.convertFungibleAmount amount decimals) (fun value =>
  Ok {| al_id := assetId; al_fun := Fungible value |}))).

End Adjusted.

(** The events of a trace that are dry runs of a finished transaction. *)
Definition isDryRunCall (e : Event) : bool :=
  match e with
  | DryRunCall _ _ => true
  | _ => false
  end.

(** The active version after a series of [enforceXcmVersion] calls, the
    outcome of each call being dropped. *)
Definition enforceAll (versions : list XcmVersion) (this : SimpleXcm) : SimpleXcm :=
  fold_left (fun s v => snd (enforceXcmVersion v s)) versions this.

(** ** More sample data *)

Module Samples.
Import Reference Scenario.

#[export] Instance currencies : CurrencyLookup := {|
  sanitizeLookupName := fun _ => None;
  currencyDecimalsBySymbol := fun symbol =>
    if String.eqb symbol "DOT" then Ok 10%Z
    else if String.eqb symbol "USDT" then Ok 6%Z
    else Throw (ErrCollaborator "unknown currency");
  currencyDecimalsByUniversalLocation := fun l =>
    if decide (l = [polkadot]) then Ok 10%Z
    else Throw (ErrCollaborator "unknown currency")
|}.

(** A chain whose estimator reports a shortfall of 1 at every call. *)
Definition alwaysShort : SimpleXcm :=
  connected {|
    tx := {[ "polkadotXcm"%string := ["transferAssets"%string] ]};
    pallets := ["System"; "PolkadotXcm"]%string;
    locationToAccountApi := Some (fun _ => inl "0xa11ce"%string);
    estimateExtrinsicFees := fun _ _ _ _ =>
      ThrowsFeeEstimationErrors [TooExpensiveFeeError 1];
    dryRunExtrinsic := fun _ _ => None
  |}.

(** A chain without the location-to-account runtime API. *)
Definition withoutAccountApi : SimpleXcm :=
  connected {|
    tx := {[ "polkadotXcm"%string := ["transferAssets"%string] ]};
    pallets := ["System"; "PolkadotXcm"]%string;
    locationToAccountApi := None;
    estimateExtrinsicFees := scripted shortfalls320;
    dryRunExtrinsic := fun _ _ => None
  |}.

(** Prepared parameters whose fee entry is not fungible. *)
Definition preparedNonFungible : PreparedTransferParams := {|
  origin := SystemSigned "0xa11ce";
  assets := {| va_version := 4;
               va_assets := [ {| id := dot; fun_ := NonFungible "item-7" |} ] |};
  feeAssetId := dot;
  feeAssetIndex := 0;
  feeAnyAssetRef := 0;
  destination := {| parents := 1; interior := [Parachain 1000] |};
  beneficiary := {| parents := 0; interior := [AccountId32 None "bob"] |}
|}.

Definition requestSigned : TransferParams := {|
  tp_origin := OriginGiven (SystemSigned "0xa11ce");
  tp_assets :=
    [ {| al_id := Given usdt; al_fun := Fungible 70 |};
      {| al_id := Named "DOT"; al_fun := Fungible 10 |} ];
  tp_feeAssetId := Named "DOT";
  tp_destination := Named "AssetHub";
  tp_beneficiary := Given {| parents := 0; interior := [AccountId32 None "bob"] |}
|}.

End Samples.

(** * Properties *)

(** ** Version enforcement *)

(** C10.  [enforceXcmVersion]: a version above the one the estimator found
    for the chain makes the call throw and leaves the instance as it was;
    any other version returns normally and becomes the instance's active
    version, every other field being kept. *)
Theorem enforceXcmVersion_outcome (version : XcmVersion) (this : SimpleXcm) :
  (estimator_xcmVersion this < version ->
     enforceXcmVersion version this
       = (Throw (ErrVersionNotSupported version (estimator_xcmVersion this)), this))
  /\ (version <= estimator_xcmVersion this ->
      exists this',
        enforceXcmVersion version this = (Ok tt, this')
        /\ xcmVersion this' = version
        /\ estimator_xcmVersion this' = estimator_xcmVersion this
        /\ api this' = api this /\ registry this' = registry this
        /\ chainInfo this' = chainInfo this /\ palletXcm this' = palletXcm this).
Proof.
  unfold enforceXcmVersion. split; intros Hcmp.
  - apply Nat.ltb_lt in Hcmp. now rewrite Hcmp.
  - destruct (Nat.ltb_spec (estimator_xcmVersion this) version) as [Hlt | _]; [lia |].
    eexists. repeat split; reflexivity.
Qed.

Lemma enforceXcmVersion_outcome_witness :
  fst (enforceXcmVersion 5 Scenario.primary)
    = Throw (ErrVersionNotSupported 5 4)
  /\ xcmVersion (snd (enforceXcmVersion 5 Scenario.primary)) = 4
  /\ xcmVersion (snd (enforceXcmVersion 3 Scenario.primary)) = 3.
Proof.
  pose proof (enforceXcmVersion_outcome 5 Scenario.primary) as [Hhigh _].
  pose proof (enforceXcmVersion_outcome 3 Scenario.primary) as [_ Hlow].
  split; [| split].
  - rewrite Hhigh; [reflexivity | simpl; lia].
  - rewrite Hhigh; [reflexivity | simpl; lia].
  - destruct Hlow as (this' & Heq & Hv & _); [simpl; lia |].
    rewrite Heq. exact Hv.
Defined.

(** ** Amount conversion *)

Section AmountFacts.
Import Js Amount.
Local Open Scope Z_scope.

Lemma append_cons (c : ascii) (s t : string) :
  (String c s ++ t)%string = String c (s ++ t)%string.
Proof. reflexivity. Qed.

Lemma append_empty_l (s : string) : ("" ++ s)%string = s.
Proof. reflexivity. Qed.

Lemma append_empty_r (s : string) : (s ++ "")%string = s.
Proof. induction s as [| c s IH]; [reflexivity |]. now rewrite append_cons, IH. Qed.

Lemma length_append (s t : string) :
  String.length (s ++ t)%string = (String.length s + String.length t)%nat.
Proof.
  induction s as [| c s IH]; [reflexivity |].
  rewrite append_cons. simpl. now rewrite IH.
Qed.

Lemma length_repeatChar (n : nat) (c : ascii) : String.length (repeatChar n c) = n.
Proof. induction n as [| n IH]; simpl; congruence. Qed.

Lemma isDigit_not_dot (c : ascii) : isDigit c = true -> Ascii.eqb c "."%char = false.
Proof.
  intros Hd. destruct (Ascii.eqb_spec c "."%char) as [-> | _]; [| reflexivity].
  discriminate Hd.
Qed.

Lemma isNonZeroDigit_isDigit (c : ascii) : isNonZeroDigit c = true -> isDigit c = true.
Proof.
  unfold isNonZeroDigit, isDigit. intros Hd.
  apply andb_prop in Hd as [Hlo Hhi]. apply andb_true_intro. split; [| exact Hhi].
  apply N.leb_le in Hlo. apply N.leb_le. lia.
Qed.

Lemma optFraction_shape (rest : string) :
  optFraction rest = true -> exists f, fractionOf rest f.
Proof.
  destruct rest as [| c r]; simpl; intros Hm.
  - exists EmptyString. now left.
  - apply andb_prop in Hm as [Hc Hr]. apply Ascii.eqb_eq in Hc as ->.
    exists r. right. destruct r; [discriminate Hr |]. repeat split; [discriminate | exact Hr].
Qed.

Lemma digitsThenFraction_shape (s : string) :
  digitsThenFraction s = true ->
  exists i rest f, s = (i ++ rest)%string /\ allDigits i = true /\ fractionOf rest f.
Proof.
  induction s as [| c r IH]; intros Hm.
  - exists EmptyString, EmptyString, EmptyString. repeat split. now left.
  - change (digitsThenFraction (String c r))
      with (if isDigit c then digitsThenFraction r else optFraction (String c r)) in Hm.
    destruct (isDigit c) eqn:Hd.
    + destruct (IH Hm) as (i & rest & f & -> & Hi & Hf).
      exists (String c i), rest, f. repeat split; [| exact Hf].
      simpl. now rewrite Hd.
    + destruct (optFraction_shape _ Hm) as (f & Hf).
      exists EmptyString, (String c r), f. now repeat split.
Qed.

Lemma numberRegEx_shape (s : string) :
  numberRegEx_test s = true ->
  exists i rest f,
    s = (i ++ rest)%string /\ i <> EmptyString /\ allDigits i = true
    /\ fractionOf rest f.
Proof.
  destruct s as [| c r]; [discriminate |]. unfold numberRegEx_test.
  destruct (Ascii.eqb_spec c "0"%char) as [-> | _].
  - intros Hm. destruct (optFraction_shape _ Hm) as (f & Hf).
    exists "0"%string, r, f. repeat split; [discriminate | exact Hf].
  - destruct (isNonZeroDigit c) eqn:Hd; [| discriminate].
    intros Hm. destruct (digitsThenFraction_shape _ Hm) as (i & rest & f & -> & Hi & Hf).
    exists (String c i), rest, f. repeat split; [discriminate | | exact Hf].
    simpl. now rewrite (isNonZeroDigit_isDigit _ Hd).
Qed.

Lemma split_digits (i rest h : string) (t : list string) :
  allDigits i = true ->
  split "."%char rest = h :: t ->
  split "."%char (i ++ rest) = (i ++ h)%string :: t.
Proof.
  intros Hi Hrest. induction i as [| c i IH].
  - now rewrite !append_empty_l.
  - simpl in Hi. apply andb_prop in Hi as [Hc Hi].
    rewrite !append_cons. simpl. now rewrite (isDigit_not_dot _ Hc), (IH Hi).
Qed.

Lemma split_shape (i rest f : string) :
  allDigits i = true -> fractionOf rest f ->
  nth 0 (split "."%char (i ++ rest)) EmptyString = i
  /\ nth 1 (split "."%char (i ++ rest)) EmptyString = f.
Proof.
  intros Hi [[-> ->] | (-> & _ & Hf)].
  - rewrite (split_digits i "" "" [] Hi eq_refl). simpl. now rewrite append_empty_r.
  - pose proof (split_digits f "" "" [] Hf eq_refl) as Hs.
    rewrite !append_empty_r in Hs.
    rewrite (split_digits i (String "."%char f) "" [f] Hi); [| simpl; now rewrite Hs].
    simpl. now rewrite append_empty_r.
Qed.

Lemma bigIntAcc_allDigits (s : string) (acc : Z) :
  allDigits s = true -> bigIntAcc acc s = Some (digitsValueFrom acc s).
Proof.
  revert acc. induction s as [| c s IH]; intros acc Hs; [reflexivity |].
  simpl in Hs. apply andb_prop in Hs as [Hc Hs]. simpl. rewrite Hc. now apply IH.
Qed.

Lemma bigIntAcc_Some_allDigits (s : string) (acc v : Z) :
  bigIntAcc acc s = Some v -> allDigits s = true.
Proof.
  revert acc. induction s as [| c s IH]; intros acc Hs; [reflexivity |].
  simpl in Hs. simpl. destruct (isDigit c); [| discriminate]. now apply (IH _ Hs).
Qed.

Lemma allDigits_append (s t : string) :
  allDigits (s ++ t) = allDigits s && allDigits t.
Proof.
  induction s as [| c s IH]; [reflexivity |].
  rewrite append_cons. simpl. now rewrite IH, andb_assoc.
Qed.

Lemma allDigits_zeros (k : nat) : allDigits (repeatChar k "0"%char) = true.
Proof. induction k as [| k IH]; [reflexivity |]. simpl. exact IH. Qed.

Lemma digitsValueFrom_append (s t : string) (acc : Z) :
  digitsValueFrom acc (s ++ t) = digitsValueFrom (digitsValueFrom acc s) t.
Proof.
  revert acc. induction s as [| c s IH]; intros acc; [reflexivity |].
  rewrite append_cons. simpl. apply IH.
Qed.

Lemma digitsValueFrom_zeros (k : nat) (acc : Z) :
  digitsValueFrom acc (repeatChar k "0"%char) = acc * 10 ^ Z.of_nat k.
Proof.
  revert acc. induction k as [| k IH]; intros acc.
  - simpl. lia.
  - cbn [repeatChar digitsValueFrom]. rewrite IH.
    replace (digitValue "0"%char) with 0 by reflexivity.
    rewrite Nat2Z.inj_succ, Z.pow_succ_r by lia. ring.
Qed.

Lemma digitsValueFrom_shift (s : string) (acc : Z) :
  digitsValueFrom acc s
    = acc * 10 ^ Z.of_nat (String.length s) + digitsValueFrom 0 s.
Proof.
  revert acc. induction s as [| c s IH]; intros acc.
  - simpl. lia.
  - cbn [digitsValueFrom String.length]. rewrite IH, (IH (10 * 0 + digitValue c)).
    rewrite Nat2Z.inj_succ, Z.pow_succ_r by lia. ring.
Qed.

Lemma fractionValue_scaled (f : string) :
  (fractionValue f * inject_Z (10 ^ Z.of_nat (String.length f))
     == inject_Z (digitsValueFrom 0 f))%Q.
Proof.
  induction f as [| c f IH].
  - simpl. reflexivity.
  - cbn [fractionValue digitsValueFrom String.length].
    rewrite (digitsValueFrom_shift f (10 * 0 + digitValue c)).
    rewrite Nat2Z.inj_succ, Z.pow_succ_r by lia.
    rewrite inject_Z_plus, !inject_Z_mult, <- IH.
    replace (10 * 0 + digitValue c) with (digitValue c) by ring.
    change (inject_Z 10) with 10%Q. field.
Qed.

Lemma numeralValueFrom_digits (i rest f : string) (acc : Z) :
  allDigits i = true -> fractionOf rest f ->
  (numeralValueFrom acc (i ++ rest)
     == inject_Z (digitsValueFrom acc i) + fractionValue f)%Q.
Proof.
  intros Hi Hf. revert acc. induction i as [| c i IH]; intros acc.
  - destruct Hf as [[-> ->] | (-> & _ & _)]; simpl; ring.
  - simpl in Hi. apply andb_prop in Hi as [Hc Hi].
    rewrite append_cons. cbn [numeralValueFrom digitsValueFrom].
    rewrite (isDigit_not_dot _ Hc). apply (IH Hi).
Qed.

(** The [SyntaxError] of [BigInt] is out of reach: what the format check
    lets through is made of digits once the dot is taken out. *)
Lemma convertFungibleAmount_no_SyntaxError (amount : string) (decimals : Z) :
  convertFungibleAmount amount decimals <> Throw ErrSyntaxError.
Proof.
  unfold convertFungibleAmount.
  destruct (numberRegEx_test amount) eqn:Hre; [| discriminate]. cbn [negb].
  destruct (numberRegEx_shape _ Hre) as (i & rest & f & -> & _ & Hi & Hf).
  destruct (split_shape i rest f Hi Hf) as [-> ->].
  destruct (negb (isSafeInteger decimals) || (decimals <? 0) || (38 <? decimals));
    [discriminate |].
  destruct (Z.of_nat (String.length (padEnd f (Z.to_nat decimals) "0")) >? decimals);
    [discriminate |].
  assert (Hf' : allDigits f = true).
  { destruct Hf as [[_ ->] | (_ & _ & Hf)]; [reflexivity | exact Hf]. }
  unfold BigInt, padEnd. rewrite bigIntAcc_allDigits
    by (rewrite !allDigits_append, Hi, Hf', allDigits_zeros; reflexivity).
  discriminate.
Qed.

(** C8.  [#convertFungibleAmount]: ["1.5"] with 10 decimals is
    [15000000000]; ["023"] is refused for its format, whatever the
    decimals; ["1.23456789012"] with 10 decimals is refused because its
    decimal part, 11 digits, is longer than the decimals; and every value
    returned is the number the amount denotes multiplied by ten to the
    power [decimals], exactly. *)
Theorem convertFungibleAmount_scales :
  convertFungibleAmount "1.5" 10 = Ok 15000000000
  /\ (forall decimals, convertFungibleAmount "023" decimals = Throw ErrInvalidAmountFormat)
  /\ convertFungibleAmount "1.23456789012" 10 = Throw (ErrDecimalPartTooLong 11 10)
  /\ (forall amount decimals value,
        convertFungibleAmount amount decimals = Ok value ->
        (inject_Z value == numeralValue amount * inject_Z (10 ^ decimals))%Q).
Proof.
  split; [reflexivity |]. split; [reflexivity |]. split; [reflexivity |].
  intros amount decimals value. unfold convertFungibleAmount.
  destruct (numberRegEx_test amount) eqn:Hre; [| discriminate]. cbn [negb].
  destruct (numberRegEx_shape _ Hre) as (i & rest & f & -> & _ & Hi & Hf).
  destruct (split_shape i rest f Hi Hf) as [-> ->].
  destruct (negb (isSafeInteger decimals) || (decimals <? 0) || (38 <? decimals)) eqn:Hdec;
    [discriminate |].
  apply orb_false_elim in Hdec as [Hdec _]. apply orb_false_elim in Hdec as [_ Hneg].
  apply Z.ltb_ge in Hneg.
  unfold padEnd. rewrite length_append, length_repeatChar.
  destruct (Z.gtb_spec (Z.of_nat (String.length f + (Z.to_nat decimals - String.length f))) decimals)
    as [_ | Hlen]; [discriminate |].
  assert (Hf' : allDigits f = true).
  { destruct Hf as [[_ ->] | (_ & _ & Hf)]; [reflexivity | exact Hf]. }
  unfold BigInt. rewrite bigIntAcc_allDigits
    by (rewrite !allDigits_append, Hi, Hf', allDigits_zeros; reflexivity).
  intros [= <-]. unfold numeralValue.
  rewrite (numeralValueFrom_digits i rest f 0 Hi Hf).
  rewrite !digitsValueFrom_append, digitsValueFrom_zeros.
  rewrite (digitsValueFrom_shift f (digitsValueFrom 0 i)).
  set (n := String.length f) in *. set (k := (Z.to_nat decimals - n)%nat) in *.
  assert (Hd : decimals = Z.of_nat n + Z.of_nat k) by lia.
  rewrite Hd, Z.pow_add_r by lia.
  rewrite !inject_Z_mult, inject_Z_plus, !inject_Z_mult.
  rewrite <- (fractionValue_scaled f). fold n. ring.
Qed.

Lemma convertFungibleAmount_scales_witness :
  (inject_Z 15000000000 == numeralValue "1.5" * inject_Z (10 ^ 10))%Q.
Proof.
  destruct convertFungibleAmount_scales as (_ & _ & _ & Hscale).
  apply (Hscale "1.5"%string 10 15000000000). reflexivity.
Defined.

End AmountFacts.

(** ** Fee estimation wrapper *)

Lemma fold_left_add_from (l : list Z) (start : Z) :
  fold_left (fun sum missing => (sum + missing)%Z) l start
    = (start + fold_left (fun sum missing => (sum + missing)%Z) l 0%Z)%Z.
Proof.
  revert start. induction l as [| x l IH]; intros start; simpl; [lia |].
  rewrite IH, (IH (0 + x)%Z). lia.
Qed.

Lemma totalMissing_fold (errors : list HopError) :
  fold_left (fun sum missing => (sum + missing)%Z) (tooExpensiveErrors errors) 0%Z
    = totalMissing errors.
Proof.
  induction errors as [| [missing | description] rest IH]; [reflexivity | |].
  - change (tooExpensiveErrors (TooExpensiveFeeError missing :: rest))
      with (missing :: tooExpensiveErrors rest).
    simpl. rewrite fold_left_add_from, IH. lia.
  - exact IH.
Qed.

Lemma tooExpensiveErrors_nil (errors : list HopError) :
  tooExpensiveErrors errors = [] <-> Forall (fun e => ~ isTooExpensive e) errors.
Proof.
  induction errors as [| [missing | description] rest IH].
  - split; [constructor | reflexivity].
  - split; [discriminate |]. intros Hall. inversion Hall as [| ? ? Hhead _]; subst.
    exfalso. apply Hhead. now exists missing.
  - change (tooExpensiveErrors (OtherHopError description :: rest))
      with (tooExpensiveErrors rest).
    rewrite IH. split.
    + intros Hrest. constructor; [| exact Hrest]. intros [m Hm]. discriminate Hm.
    + intros Hall. now inversion Hall.
Qed.

(** C2, as the code has it.  When the estimator throws an aggregate of
    per-hop failures: if at least one of them is a too-expensive shortfall,
    the missing amounts of the too-expensive ones are added up and returned
    as one recoverable shortfall, the failures of other kinds being left
    out; if none is (an empty aggregate included), the aggregate is thrown
    again as it was.  One estimation call is recorded either way. *)
Theorem tryEstimate_aggregate (this : SimpleXcm) (o : Origin) (xt : Tx)
    (fee : AssetId) (w : Trace) (errors : list HopError) :
  estimateExtrinsicFees (api this) (estimateCalls w) o xt fee
    = ThrowsFeeEstimationErrors errors ->
  (Exists isTooExpensive errors ->
     tryEstimateExtrinsicXcmFees this o xt fee w
       = (Ok (EstError (totalMissing errors)), w ++ [EstimateFeesCall o xt fee]))
  /\ (Forall (fun e => ~ isTooExpensive e) errors ->
      tryEstimateExtrinsicXcmFees this o xt fee w
        = (Throw (ErrFeeEstimationErrors errors), w ++ [EstimateFeesCall o xt fee])).
Proof.
  intros Hthrow. unfold tryEstimateExtrinsicXcmFees. rewrite Hthrow.
  split; intros Hkind.
  - destruct (tooExpensiveErrors errors) as [| x l] eqn:Hfiltered.
    + apply tooExpensiveErrors_nil in Hfiltered.
      apply Exists_exists in Hkind as (e & Hin & He).
      rewrite Forall_forall in Hfiltered.
      exfalso. exact (Hfiltered e Hin He).
    + rewrite <- Hfiltered, totalMissing_fold, Hfiltered. reflexivity.
  - apply tooExpensiveErrors_nil in Hkind. rewrite Hkind. reflexivity.
Qed.

Lemma tryEstimate_aggregate_witness :
  let this := Scenario.connected (Scenario.chain [] []
                [ThrowsFeeEstimationErrors
                   [TooExpensiveFeeError 3; TooExpensiveFeeError 4]]) in
  let xt := TransferMultiassets "xTokens" (mkVersionedAssets 4 [])
              0 (mkVersionedLocation 4 Scenario.dot) Unlimited in
  fst (tryEstimateExtrinsicXcmFees this (SystemSigned "0xa11ce") xt Scenario.dot [])
    = Ok (EstError 7).
Proof.
  intros this xt.
  pose proof (tryEstimate_aggregate this (SystemSigned "0xa11ce") xt Scenario.dot []
                [TooExpensiveFeeError 3; TooExpensiveFeeError 4] eq_refl) as [Hsum _].
  rewrite Hsum; [reflexivity |].
  apply Exists_cons_hd. now exists 3%Z.
Defined.

(** C2, as it is written, fails: an aggregate holding a shortfall of 3 and
    a failure of another kind is not thrown again; it comes back as a
    recoverable shortfall of 3. *)
Lemma tryEstimate_mixed_aggregate_recovered :
  let errors := [TooExpensiveFeeError 3; OtherHopError "dry run failed"] in
  let this := Scenario.connected (Scenario.chain [] []
                [ThrowsFeeEstimationErrors errors]) in
  let xt := TransferMultiassets "xTokens" (mkVersionedAssets 4 [])
              0 (mkVersionedLocation 4 Scenario.dot) Unlimited in
  Exists (fun e => ~ isTooExpensive e) errors
  /\ estimateExtrinsicFees (api this) 0 (SystemSigned "0xa11ce") xt Scenario.dot
       = ThrowsFeeEstimationErrors errors
  /\ fst (tryEstimateExtrinsicXcmFees this (SystemSigned "0xa11ce") xt Scenario.dot [])
       = Ok (EstError 3)
  /\ fst (tryEstimateExtrinsicXcmFees this (SystemSigned "0xa11ce") xt Scenario.dot [])
       <> Throw (ErrFeeEstimationErrors errors).
Proof.
  cbv zeta. split; [| split; [reflexivity | split; [reflexivity | discriminate]]].
  apply Exists_cons_tl, Exists_cons_hd. intros [m Hm]. discriminate Hm.
Qed.

(** ** Backend selection *)

Section BackendFacts.
Context `{XcmUtil}.

Lemma scanPallet_keeps_backend (l : list string) (state : option string * option Backend) :
  snd (fold_left scanPallet l state) = snd state.
Proof.
  revert state. induction l as [| pallet l IH]; intros [palletName backend]; [reflexivity |].
  simpl. now rewrite IH.
Qed.

(** C3, as the code has it.  When pallet-xcm has the [transferAssets]
    extrinsic the pallet-xcm backend is selected.  When it has not, the
    declared pallets are gone through, but no pallet name is recognized
    (the [xTokens] case of the [switch] is commented out), so the selection
    fails with the no-known-backend error that names the chain, whatever
    the pallets are. *)
Theorem transferBackend_selection (this : SimpleXcm) (extrinsics : list string) :
  tx (api this) !! palletXcm this = Some extrinsics ->
  ("transferAssets"%string ∈ extrinsics ->
     transferBackend this = Ok PalletXcmBackend)
  /\ ("transferAssets"%string ∉ extrinsics ->
      transferBackend this = Throw (ErrNoTransferBackend (name (chainInfo this)))
      /\ errorMessage (ErrNoTransferBackend (name (chainInfo this)))
           = Some (name (chainInfo this) ++ ": No known XCM transfer backend pallet is found")%string).
Proof.
  intros Hpallet. unfold transferBackend. rewrite Hpallet. split; intros Hin.
  - now rewrite bool_decide_eq_true_2.
  - rewrite bool_decide_eq_false_2 by exact Hin.
    pose proof (scanPallet_keeps_backend (pallets (api this)) (None, None)) as Hscan.
    destruct (fold_left scanPallet (pallets (api this)) (None, None)) as [palletName backend].
    simpl in Hscan. subst backend. split; reflexivity.
Qed.

End BackendFacts.

Lemma transferBackend_selection_witness :
  @transferBackend Reference.util Scenario.primary = Ok PalletXcmBackend.
Proof.
  refine (proj1 (@transferBackend_selection Reference.util Scenario.primary
                   ["transferAssets"%string] _) _).
  - reflexivity.
  - apply list_elem_of_here.
Defined.

(** C3, as it is written, fails: a chain whose pallet-xcm lacks
    [transferAssets] and which declares the [XTokens] pallet, named
    [xTokens] in the transaction API, gets no backend at all. *)
Lemma transferBackend_ignores_xTokens :
  tx (api Scenario.withXTokens) !! palletXcm Scenario.withXTokens = Some ["send"%string]
  /\ "XTokens"%string ∈ pallets (api Scenario.withXTokens)
  /\ @palletApiTxName Reference.util "XTokens" = "xTokens"%string
  /\ @transferBackend Reference.util Scenario.withXTokens
       = Throw (ErrNoTransferBackend "Unique")
  /\ @transferBackend Reference.util Scenario.withXTokens <> Ok XTokensBackend.
Proof.
  split; [reflexivity |]. split; [| split; [reflexivity | split; [reflexivity | discriminate]]].
  simpl. apply list_elem_of_further,  list_elem_of_further, list_elem_of_here.
Qed.

(** ** Named lookups *)

Section ResolverFacts.
Context `{XcmUtil}.

Lemma commonPrefixLength_take (a b : InteriorLocation) :
  take (commonPrefixLength a b) a = take (commonPrefixLength a b) b.
Proof.
  revert b. induction a as [| x a IH]; intros [| y b]; try reflexivity.
  simpl. destruct (decide (x = y)) as [-> | _]; [| reflexivity].
  simpl. now rewrite IH.
Qed.

Lemma commonPrefixLength_le (a b : InteriorLocation) :
  commonPrefixLength a b <= length b.
Proof.
  revert b. induction a as [| x a IH]; intros [| y b]; simpl; try lia.
  destruct (decide (x = y)); simpl; [| lia]. specialize (IH b). lia.
Qed.

(** Going to the relative form and back gives the universal location
    again, so the two conversions agree on what a relative location means. *)
Lemma relative_then_universal (universal context : InteriorLocation) :
  relativeLocationToUniversal (locationRelativeToPrefix universal context) context
    = Ok universal.
Proof.
  unfold relativeLocationToUniversal, locationRelativeToPrefix. cbn [parents interior].
  pose proof (commonPrefixLength_le universal context) as Hle.
  destruct (Nat.ltb_spec (length context)
              (length context - commonPrefixLength universal context)) as [Hlt | _]; [lia |].
  replace (length context - (length context - commonPrefixLength universal context))
    with (commonPrefixLength universal context) by lia.
  now rewrite <- commonPrefixLength_take, take_drop.
Qed.

(** C6.  A name given to [resolveRelativeLocation] or to
    [resolveUniversalLocation]: the universal location the registry knows
    under the name is used when there is one, re-expressed relative to the
    universal location of the calling chain by the former and returned as
    it is by the latter; only when there is none is the relative location
    known under the name used, returned as it is by the former and lifted
    to the universal form by the latter; when the registry knows neither,
    both fail with the unknown-named-location error that carries the name. *)
Theorem named_lookup_order (this : SimpleXcm) (key : string) :
  (forall universal,
     universalLocation (registry this) key = Some universal ->
     resolveRelativeLocation this (OfLookup (Named key))
       = Ok (locationRelativeToPrefix universal (ci_universalLocation (chainInfo this)))
     /\ resolveUniversalLocation this (InteriorNamed key) = Ok universal)
  /\ (forall relative,
        universalLocation (registry this) key = None ->
        relativeLocation (registry this) key = Some relative ->
        resolveRelativeLocation this (OfLookup (Named key)) = Ok relative
        /\ resolveUniversalLocation this (InteriorNamed key)
             = relativeLocationToUniversal relative (ci_universalLocation (chainInfo this)))
  /\ (universalLocation (registry this) key = None ->
      relativeLocation (registry this) key = None ->
      resolveRelativeLocation this (OfLookup (Named key)) = Throw (ErrUnknownNamedLocation key)
      /\ resolveUniversalLocation this (InteriorNamed key) = Throw (ErrUnknownNamedLocation key)
      /\ errorMessage (ErrUnknownNamedLocation key)
           = Some (key ++ ": unknown named location")%string).
Proof.
  unfold resolveRelativeLocation, resolveUniversalLocation.
  split; [| split].
  - intros universal ->. split; reflexivity.
  - intros relative -> ->. split; reflexivity.
  - intros -> ->. repeat split; reflexivity.
Qed.

End ResolverFacts.

Lemma named_lookup_order_witness :
  @resolveRelativeLocation Reference.util Scenario.primary (OfLookup (Named "Acala"))
    = Throw (ErrUnknownNamedLocation "Acala")
  /\ @resolveUniversalLocation Reference.util Scenario.primary (InteriorNamed "Acala")
       = Throw (ErrUnknownNamedLocation "Acala")
  /\ errorMessage (ErrUnknownNamedLocation "Acala")
       = Some "Acala: unknown named location"%string.
Proof.
  exact (proj2 (proj2 (@named_lookup_order Reference.util Scenario.primary "Acala"))
           eq_refl eq_refl).
Defined.

(** ** The fee convergence loop *)

Section LoopFacts.

Lemma tryEstimate_trace (this : SimpleXcm) (o : Origin) (xt : Tx) (fee : AssetId)
    (w : Trace) :
  snd (tryEstimateExtrinsicXcmFees this o xt fee w) = w ++ [EstimateFeesCall o xt fee].
Proof.
  unfold tryEstimateExtrinsicXcmFees.
  destruct (estimateExtrinsicFees (api this) (estimateCalls w) o xt fee) as [v | errors | e];
    [reflexivity | | reflexivity].
  now destruct (0 <? length (tooExpensiveErrors errors))%nat.
Qed.

Lemma feeAnyAsset_setFeeFungible (p : PreparedTransferParams) (a : Asset) (v : Z) :
  feeAnyAsset p = Some a ->
  feeAnyAsset (setFeeFungible v p) = Some {| id := id a; fun_ := Fungible v |}.
Proof.
  unfold feeAnyAsset. intros Ha. simpl. now rewrite list_lookup_alter_eq, Ha.
Qed.

Lemma setFeeFungible_twice (p : PreparedTransferParams) (v v' : Z) :
  setFeeFungible v' (setFeeFungible v p) = setFeeFungible v' p.
Proof.
  unfold setFeeFungible. simpl. f_equal. f_equal.
  rewrite list_alter_alter_eq. apply list_alter_ext; [| reflexivity].
  intros a _. reflexivity.
Qed.

Lemma setFeeFungible_same (p : PreparedTransferParams) (a : Asset) (v : Z) :
  feeAnyAsset p = Some a -> fun_ a = Fungible v -> setFeeFungible v p = p.
Proof.
  unfold feeAnyAsset, setFeeFungible. intros Ha Hv.
  destruct p as [o [ver l] fid idx ref d b]. simpl in *. f_equal. f_equal.
  apply list_eq. intros i. destruct (decide (ref = i)) as [<- | Hne].
  - rewrite list_lookup_alter_eq, Ha. simpl. destruct a as [ai af]. simpl in Hv. now subst af.
  - now rewrite list_lookup_alter_ne.
Qed.

Lemma addToFeeFungible_set (p : PreparedTransferParams) (a : Asset) (v x : Z) :
  feeAnyAsset p = Some a ->
  addToFeeFungible x (setFeeFungible v p) = Ok (setFeeFungible (v + x) p).
Proof.
  intros Ha. unfold addToFeeFungible.
  rewrite (feeAnyAsset_setFeeFungible p a v Ha). simpl. now rewrite setFeeFungible_twice.
Qed.

Lemma feeLoop_run (this : SimpleXcm) (d b : VersionedLocation)
    (p : PreparedTransferParams) (a : Asset) (value : Z) (shortfalls : list Z) :
  feeAnyAsset p = Some a ->
  forall (v : Z) (w : Trace) (fuel : nat),
    answers this d b p v shortfalls value w ->
    length shortfalls < fuel ->
    feeLoop fuel this d b (setFeeFungible v p) w
      = (Some (Ok tt), setFeeFungible (v + sumZ shortfalls + value) p,
         w ++ estimationCalls this d b p v shortfalls).
Proof.
  intros Ha. induction shortfalls as [| missing rest IH]; intros v w fuel Hans Hfuel;
    (destruct fuel as [| fuel]; [simpl in Hfuel; lia |]);
    cbn [feeLoop answers] in *;
    change (origin (setFeeFungible v p)) with (origin p);
    change (feeAssetId (setFeeFungible v p)) with (feeAssetId p);
    pose proof (tryEstimate_trace this (origin p)
                  (transferAssetsTx this d b (setFeeFungible v p)) (feeAssetId p) w) as Htrace;
    destruct (tryEstimateExtrinsicXcmFees this (origin p)
                (transferAssetsTx this d b (setFeeFungible v p)) (feeAssetId p) w)
      as [r w'] eqn:Hest; simpl in Htrace, Hans; subst w'.
  - subst r. rewrite (addToFeeFungible_set p a v value Ha).
    unfold sumZ. simpl. now rewrite Z.add_0_r.
  - destruct Hans as [-> Hrest].
    rewrite (feeAnyAsset_setFeeFungible p a v Ha). cbn [fun_].
    rewrite setFeeFungible_twice, (IH (v + missing)%Z _ fuel Hrest) by (simpl in Hfuel; lia).
    cbn [estimationCalls]. rewrite <- app_assoc. simpl.
    unfold sumZ. simpl. fold (sumZ rest). do 2 f_equal. f_equal. lia.
Qed.

Lemma estimateCalls_app (w w' : Trace) :
  estimateCalls (w ++ w') = estimateCalls w + estimateCalls w'.
Proof. unfold estimateCalls. now rewrite List.filter_app, List.length_app. Qed.

Lemma estimateCalls_estimationCalls (this : SimpleXcm) (d b : VersionedLocation)
    (p : PreparedTransferParams) (shortfalls : list Z) (v : Z) :
  estimateCalls (estimationCalls this d b p v shortfalls) = S (length shortfalls).
Proof.
  revert v. induction shortfalls as [| missing rest IH]; intros v; [reflexivity |].
  cbn [estimationCalls length]. rewrite <- (IH (v + missing)%Z). reflexivity.
Qed.

(** C1.  The fee convergence loop of the pallet-xcm backend, started with
    a fungible fee asset of amount [v0] and given enough rounds.  If the
    estimator, asked about the successive candidates, reports the
    shortfalls [shortfalls] and then a fee [value], the loop returns
    normally; the fee asset's amount is then [v0] plus all the shortfalls
    plus the fee, nothing else having changed; and the estimator has been
    called once per shortfall and once more, each time about a candidate
    built with the amount reached so far, and not again after the fee. *)
Theorem fee_convergence (this : SimpleXcm) (d b : VersionedLocation)
    (p : PreparedTransferParams) (a : Asset) (v0 value : Z) (shortfalls : list Z)
    (w : Trace) (fuel : nat) :
  feeAnyAsset p = Some a ->
  fun_ a = Fungible v0 ->
  answers this d b p v0 shortfalls value w ->
  length shortfalls < fuel ->
  exists p' w',
    feeLoop fuel this d b p w = (Some (Ok tt), p', w')
    /\ p' = setFeeFungible (v0 + sumZ shortfalls + value) p
    /\ feeAnyAsset p'
         = Some {| id := id a; fun_ := Fungible (v0 + sumZ shortfalls + value) |}
    /\ w' = w ++ estimationCalls this d b p v0 shortfalls
    /\ estimateCalls w' = estimateCalls w + length shortfalls + 1.
Proof.
  intros Ha Hv0 Hans Hfuel.
  pose proof (feeLoop_run this d b p a value shortfalls Ha v0 w fuel Hans Hfuel) as Hrun.
  rewrite (setFeeFungible_same p a v0 Ha Hv0) in Hrun.
  eexists _, _. split; [exact Hrun |]. split; [reflexivity |].
  split; [now apply feeAnyAsset_setFeeFungible |]. split; [reflexivity |].
  rewrite estimateCalls_app, estimateCalls_estimationCalls. lia.
Qed.

(** What a run of the loop can do to the prepared parameters: nothing, or
    replace the amount of a fungible fee entry. *)
Lemma feeLoop_effect (this : SimpleXcm) (d b : VersionedLocation) (fuel : nat) :
  forall (p : PreparedTransferParams) (w : Trace),
    (feeLoop fuel this d b p w).1.2 = p
    \/ exists a v0 v,
         feeAnyAsset p = Some a /\ fun_ a = Fungible v0
         /\ (feeLoop fuel this d b p w).1.2 = setFeeFungible v p.
Proof.
  induction fuel as [| fuel IH]; intros p w; [now left |].
  cbn [feeLoop].
  destruct (tryEstimateExtrinsicXcmFees this (origin p) (transferAssetsTx this d b p)
              (feeAssetId p) w) as [[[value | missing] | e] w']; [| | now left].
  - unfold addToFeeFungible.
    destruct (feeAnyAsset p) as [a |] eqn:Ha; [| now left].
    destruct (fun_ a) as [v0 | instance] eqn:Hfun; [| now left].
    right. exists a, v0, (v0 + value)%Z. now repeat split.
  - destruct (feeAnyAsset p) as [a |] eqn:Ha; [| now left].
    destruct (fun_ a) as [v0 | instance] eqn:Hfun; [| rewrite <- Ha; apply IH].
    right. exists a, v0.
    destruct (IH (setFeeFungible (v0 + missing) p) w') as [-> | (a' & v1 & v & _ & _ & ->)].
    + exists (v0 + missing)%Z. now repeat split.
    + exists v. rewrite setFeeFungible_twice. now repeat split.
Qed.

(** C5.  Whatever the estimator answers and however the loop ends (it
    returns, it throws, or it is cut after any number of rounds), the
    prepared parameters it leaves differ from those it was given in the
    fungible amount of the entry behind [feeAnyAssetRef] at most: origin,
    destination, beneficiary, fee-asset id, fee-asset index, the handle, the
    version tag, the length of the asset vector, the ids of its entries in
    their order and every entry other than the fee entry are the same, and
    the fee entry keeps its id and its fungibility kind. *)
Theorem feeLoop_frame (this : SimpleXcm) (d b : VersionedLocation) (fuel : nat)
    (p : PreparedTransferParams) (w : Trace) :
  let p' := (feeLoop fuel this d b p w).1.2 in
  origin p' = origin p
  /\ destination p' = destination p
  /\ beneficiary p' = beneficiary p
  /\ feeAssetId p' = feeAssetId p
  /\ feeAssetIndex p' = feeAssetIndex p
  /\ feeAnyAssetRef p' = feeAnyAssetRef p
  /\ va_version (assets p') = va_version (assets p)
  /\ length (va_assets (assets p')) = length (va_assets (assets p))
  /\ map id (va_assets (assets p')) = map id (va_assets (assets p))
  /\ (forall i, i <> feeAnyAssetRef p ->
        va_assets (assets p') !! i = va_assets (assets p) !! i)
  /\ (forall a, feeAnyAsset p = Some a ->
        exists a', feeAnyAsset p' = Some a' /\ id a' = id a
                   /\ (a' = a \/ exists v v', fun_ a = Fungible v /\ fun_ a' = Fungible v')).
Proof.
  intros p'. subst p'.
  destruct (feeLoop_effect this d b fuel p w) as [-> | (a & v0 & v & Ha & Hfun & ->)].
  - repeat split; try reflexivity. intros a Ha. exists a. repeat split; [exact Ha | now left].
  - unfold setFeeFungible, feeAnyAsset in *. cbn.
    repeat split; try reflexivity.
    + apply length_alter.
    + apply list_eq. intros i. rewrite !list_lookup_fmap.
      destruct (decide (feeAnyAssetRef p = i)) as [<- | Hne].
      * rewrite list_lookup_alter_eq. now destruct (va_assets (assets p) !! feeAnyAssetRef p).
      * now rewrite list_lookup_alter_ne.
    + intros i Hi. now rewrite list_lookup_alter_ne.
    + intros a0 Ha0. rewrite Ha in Ha0. injection Ha0 as <-.
      eexists. rewrite list_lookup_alter_eq, Ha. split; [reflexivity |].
      split; [reflexivity |]. right. exists v0, v. now split.
Qed.

End LoopFacts.

Lemma fee_convergence_witness :
  exists p' w',
    feeLoop 3 Scenario.primary Scenario.toAssetHub Scenario.toBob Scenario.prepared []
      = (Some (Ok tt), p', w')
    /\ p' = setFeeFungible (10 + sumZ [3; 2]%Z + 0)%Z Scenario.prepared
    /\ feeAnyAsset p'
         = Some {| id := Scenario.dot; fun_ := Fungible (10 + sumZ [3; 2]%Z + 0)%Z |}
    /\ w' = [] ++ estimationCalls Scenario.primary Scenario.toAssetHub Scenario.toBob
                    Scenario.prepared 10%Z [3; 2]%Z
    /\ estimateCalls w' = estimateCalls [] + length [3; 2]%Z + 1.
Proof.
  apply (fee_convergence Scenario.primary Scenario.toAssetHub Scenario.toBob
           Scenario.prepared {| id := Scenario.dot; fun_ := Fungible 10 |}
           10%Z 0%Z [3; 2]%Z [] 3).
  - reflexivity.
  - reflexivity.
  - cbn [answers]. split; [reflexivity | split; reflexivity].
  - simpl. lia.
Defined.

(** ** Preparing the transfer parameters *)

Section PrepareFacts.
Context `{XcmUtil}.

Lemma bind_inv {A B} (m : M A) (k : A -> M B) (w w' : Trace) (r : Result B) :
  bind m k w = (r, w') ->
  (exists a w1, m w = (Ok a, w1) /\ k a w1 = (r, w'))
  \/ (exists e, m w = (Throw e, w') /\ r = Throw e).
Proof.
  unfold bind. destruct (m w) as [[a | e] w1]; intros Hk.
  - left. now exists a, w1.
  - right. exists e. now injection Hk as <- <-.
Qed.

Lemma bind_Ok_inv {A B} (m : M A) (k : A -> M B) (w w' : Trace) (b : B) :
  bind m k w = (Ok b, w') ->
  exists a w1, m w = (Ok a, w1) /\ k a w1 = (Ok b, w').
Proof.
  intros Hb. destruct (bind_inv m k w w' (Ok b) Hb) as [Hok | (e & _ & He)];
    [exact Hok | discriminate He].
Qed.

Lemma bind_run {A B} (m : M A) (k : A -> M B) (w w1 : Trace) (a : A) :
  m w = (Ok a, w1) -> bind m k w = k a w1.
Proof. unfold bind. now intros ->. Qed.

Lemma lift_Ok_inv {A} (r : Result A) (w w' : Trace) (a : A) :
  lift r w = (Ok a, w') -> r = Ok a /\ w' = w.
Proof. unfold lift. now intros [= -> ->]. Qed.

Ltac bind_steps Hrun :=
  repeat match type of Hrun with
         | bind (lift _) _ _ = (Ok _, _) =>
             let a := fresh "a" in
             let w1 := fresh "w" in
             let Hstep := fresh "Hstep" in
             apply bind_Ok_inv in Hrun as (a & w1 & Hstep & Hrun);
             apply lift_Ok_inv in Hstep as [Hstep ->]
         | bind _ _ _ = (Ok _, _) =>
             let a := fresh "a" in
             let w1 := fresh "w" in
             let Hstep := fresh "Hstep" in
             apply bind_Ok_inv in Hrun as (a & w1 & Hstep & Hrun)
         end.

(** The converted fee-asset id that is looked for in the canonical vector
    is the resolved fee-asset id, tagged with the active version. *)
Lemma resolveTransferParams_feeAssetId (simpleXcm : SimpleXcm)
    (transferParams : TransferParams) (w w' : Trace) (r : ResolvedTransfer) :
  resolveTransferParams simpleXcm transferParams w = (Ok r, w') ->
  vl_location (r_convertedFeeAssetId r) = r_feeAssetId r.
Proof.
  unfold resolveTransferParams. intros Hrun. bind_steps Hrun.
  unfold ret in Hrun. injection Hrun as <- _. cbn.
  match goal with
  | Hc : convertAssetIdVersion _ _ = Ok _ |- _ =>
      unfold convertAssetIdVersion, convertLocationVersion in Hc;
      destruct (versionSupports _ _); [now injection Hc as <- | discriminate Hc]
  end.
Qed.

(** C4.  Once [prepareTransferParams] has resolved the request and holds
    the canonical asset vector: if no entry of the vector has the resolved
    fee-asset id as its id, it fails with the error saying that the fee
    asset is not part of the transfer, which names the chain; if some entry
    has, it returns parameters that carry the vector, the index of the
    first entry with that id, and a handle that is this very entry. *)
Theorem prepareTransferParams_fee_asset (simpleXcm : SimpleXcm)
    (transferParams : TransferParams) (w w' : Trace) (r : ResolvedTransfer) :
  resolveTransferParams simpleXcm transferParams w = (Ok r, w') ->
  ((forall a, a ∈ va_assets (r_assets r) -> id a <> r_feeAssetId r) ->
     prepareTransferParams simpleXcm transferParams w
       = (Throw (ErrFeeAssetNotInTransfer (name (chainInfo simpleXcm))), w'))
  /\ ((exists a, a ∈ va_assets (r_assets r) /\ id a = r_feeAssetId r) ->
      exists p entry,
        prepareTransferParams simpleXcm transferParams w = (Ok p, w')
        /\ assets p = r_assets r
        /\ feeAssetId p = r_feeAssetId r
        /\ va_assets (assets p) !! feeAssetIndex p = Some entry
        /\ id entry = r_feeAssetId r
        /\ (forall j b, j < feeAssetIndex p ->
              va_assets (assets p) !! j = Some b -> id b <> r_feeAssetId r)
        /\ feeAnyAssetRef p = feeAssetIndex p
        /\ feeAnyAsset p = Some entry).
Proof.
  intros Hres. pose proof (resolveTransferParams_feeAssetId _ _ _ _ _ Hres) as Hid.
  unfold prepareTransferParams, bind. rewrite Hres. unfold findFeeAssetById. rewrite Hid.
  split.
  - intros Habsent.
    destruct (list_find (fun a => id a = r_feeAssetId r) (va_assets (r_assets r)))
      as [[i a] |] eqn:Hfind; [| reflexivity].
    apply list_find_Some in Hfind as (Hat & Heq & _).
    exfalso. apply (Habsent a); [| exact Heq]. apply list_elem_of_lookup. now exists i.
  - intros (a & Hin & Heq).
    destruct (list_find (fun a => id a = r_feeAssetId r) (va_assets (r_assets r)))
      as [[i entry] |] eqn:Hfind.
    + apply list_find_Some in Hfind as (Hat & Hentry & Hfirst).
      eexists _, entry. split; [reflexivity |]. cbn. unfold feeAnyAsset. cbn.
      repeat split; try assumption. intros j b Hj Hb. exact (Hfirst j b Hb Hj).
    + apply list_find_None in Hfind. rewrite Forall_forall in Hfind.
      exfalso. exact (Hfind a Hin Heq).
Qed.

(** What [locationToAccountId] adds to the trace: nothing, or the one
    location-to-account runtime call. *)
Lemma locationToAccountId_location_trace (this : SimpleXcm) (l : Location) (w : Trace) :
  snd (locationToAccountId_location this l w) = w
  \/ exists versioned,
       snd (locationToAccountId_location this l w) = w ++ [ConvertLocationCall versioned].
Proof.
  unfold locationToAccountId_location.
  destruct (locationToAccountApi (api this)) as [convertLocation |]; [| now left].
  unfold bind, lift, emit. destruct (check (sanitizeLookup l)); [| now left].
  right. eexists. destruct (convertLocation _); reflexivity.
Qed.

Lemma locationToAccountId_trace (this : SimpleXcm) (lookup : Lookup) (w : Trace) :
  snd (locationToAccountId this lookup w) = w
  \/ exists versioned,
       snd (locationToAccountId this lookup w) = w ++ [ConvertLocationCall versioned].
Proof.
  unfold locationToAccountId.
  destruct (locationToAccountApi (api this)) as [convertLocation |] eqn:Hapi; [| now left].
  destruct lookup as [key | l]; [| apply locationToAccountId_location_trace].
  unfold bind, lift.
  destruct (resolveRelativeLocation this (OfLookup (Named key))) as [l | e]; [| now left].
  apply locationToAccountId_location_trace.
Qed.

(** After the origin, nothing in [prepareTransferParams] talks to the
    chain: the rest of it leaves the trace alone. *)
Lemma resolveTransferParams_after_origin (simpleXcm : SimpleXcm)
    (transferParams : TransferParams) (w : Trace) :
  match tp_origin transferParams with
  | OriginNamed key =>
      snd (resolveTransferParams simpleXcm transferParams w)
        = snd (locationToAccountId simpleXcm (Named key) w)
  | OriginGiven _ => snd (resolveTransferParams simpleXcm transferParams w) = w
  end.
Proof.
  unfold resolveTransferParams.
  assert (Hpure : forall (o : Origin) (w1 : Trace),
    snd ((let* _ := lift (check (sanitizeTransferParams transferParams)) in
          let* destination :=
            lift (resolveRelativeLocation simpleXcm (OfLookup (tp_destination transferParams))) in
          let* beneficiary :=
            lift (resolveRelativeLocation simpleXcm (OfLookup (tp_beneficiary transferParams))) in
          let* feeAssetId :=
            lift (resolveRelativeLocation simpleXcm (OfLookup (tp_feeAssetId transferParams))) in
          let* resolvedAssets :=
            lift (rmap (resolveRelativeAsset simpleXcm) (tp_assets transferParams)) in
          let* assets :=
            lift (prepareAssetsForEncoding (xcmVersion simpleXcm) resolvedAssets) in
          let* convertedFeeAssetId :=
            lift (convertAssetIdVersion (xcmVersion simpleXcm) feeAssetId) in
          ret {| r_origin := o; r_destination := destination;
                 r_beneficiary := beneficiary; r_feeAssetId := feeAssetId;
                 r_assets := assets; r_convertedFeeAssetId := convertedFeeAssetId |}) w1) = w1).
  { intros o w1. unfold bind, lift, ret.
    repeat match goal with
           | |- context [match ?r with Ok _ => _ | Throw _ => _ end] =>
               destruct r; try reflexivity
           end. }
  destruct (tp_origin transferParams) as [key | o].
  - unfold bind at 1. unfold bind at 1.
    destruct (locationToAccountId simpleXcm (Named key) w) as [[account | e] w1];
      [| reflexivity].
    unfold ret at 1. apply Hpure.
  - unfold bind at 1. unfold ret at 1. apply Hpure.
Qed.

Lemma prepareTransferParams_trace (simpleXcm : SimpleXcm)
    (transferParams : TransferParams) (w : Trace) :
  snd (prepareTransferParams simpleXcm transferParams w)
    = snd (resolveTransferParams simpleXcm transferParams w).
Proof.
  unfold prepareTransferParams, bind.
  destruct (resolveTransferParams simpleXcm transferParams w) as [[r | e] w1];
    [| reflexivity].
  destruct (findFeeAssetById (r_convertedFeeAssetId r) (r_assets r)) as [[? ?] |];
    reflexivity.
Qed.

(** C9, as the code has it.  For a request that the structural validation
    refuses: when the origin is given as such, [prepareTransferParams]
    fails with the validation error and without any network interaction;
    when the origin is a name, the origin is turned into an account first,
    which may make the one location-to-account runtime call, and the
    failure, of the origin resolution or else of the validation, comes
    after it; in neither case is a fee estimation or a dry run made, the
    trace growing by that one call at most. *)
Theorem validation_and_network (simpleXcm : SimpleXcm)
    (transferParams : TransferParams) (w : Trace) (e : Error) :
  sanitizeTransferParams transferParams = Some e ->
  (forall o, tp_origin transferParams = OriginGiven o ->
     prepareTransferParams simpleXcm transferParams w = (Throw e, w))
  /\ (forall key, tp_origin transferParams = OriginNamed key ->
        (forall account w1,
           locationToAccountId simpleXcm (Named key) w = (Ok account, w1) ->
           prepareTransferParams simpleXcm transferParams w = (Throw e, w1))
        /\ (forall err w1,
              locationToAccountId simpleXcm (Named key) w = (Throw err, w1) ->
              prepareTransferParams simpleXcm transferParams w = (Throw err, w1)))
  /\ (snd (prepareTransferParams simpleXcm transferParams w) = w
      \/ exists versioned,
           snd (prepareTransferParams simpleXcm transferParams w)
             = w ++ [ConvertLocationCall versioned]).
Proof.
  intros Hbad. split; [| split].
  - intros o Ho. unfold prepareTransferParams, resolveTransferParams.
    rewrite Ho, Hbad. reflexivity.
  - intros key Hkey. split.
    + intros account w1 Hacc. unfold prepareTransferParams, resolveTransferParams.
      rewrite Hkey, Hbad. unfold bind at 1 2 3. rewrite Hacc. reflexivity.
    + intros err w1 Hacc. unfold prepareTransferParams, resolveTransferParams.
      rewrite Hkey. unfold bind at 1 2 3. rewrite Hacc. reflexivity.
  - rewrite prepareTransferParams_trace.
    pose proof (resolveTransferParams_after_origin simpleXcm transferParams w) as Hafter.
    destruct (tp_origin transferParams) as [key | o]; rewrite Hafter; [| now left].
    apply locationToAccountId_trace.
Qed.

End PrepareFacts.

Lemma prepareTransferParams_fee_asset_witness :
  exists p entry,
    @prepareTransferParams Reference.util Scenario.primary Scenario.request []
      = (Ok p, [ConvertLocationCall
                  {| vl_version := 4;
                     vl_location := {| parents := 0;
                                       interior := [AccountId32 None "alice"] |} |}])
    /\ assets p = assets Scenario.prepared
    /\ feeAssetId p = Scenario.dot
    /\ va_assets (assets p) !! feeAssetIndex p = Some entry
    /\ id entry = Scenario.dot
    /\ (forall j b, j < feeAssetIndex p ->
          va_assets (assets p) !! j = Some b -> id b <> Scenario.dot)
    /\ feeAnyAssetRef p = feeAssetIndex p
    /\ feeAnyAsset p = Some entry.
Proof.
  refine (proj2 (@prepareTransferParams_fee_asset Reference.util Scenario.primary
                   Scenario.request [] _
                   {| r_origin := SystemSigned "0xa11ce";
                      r_destination := destination Scenario.prepared;
                      r_beneficiary := beneficiary Scenario.prepared;
                      r_feeAssetId := Scenario.dot;
                      r_assets := assets Scenario.prepared;
                      r_convertedFeeAssetId :=
                        {| vl_version := 4; vl_location := Scenario.dot |} |}
                   eq_refl) _).
  exists {| id := Scenario.dot; fun_ := Fungible 10 |}. split; [| reflexivity].
  apply list_elem_of_here.
Defined.

Example prepare_fee_asset_absent :
  @prepareTransferParams Reference.util Scenario.primary
      Scenario.requestFeeNotTransferred []
    = (Throw (ErrFeeAssetNotInTransfer "Unique"), []).
Proof. reflexivity. Qed.

Lemma validation_and_network_witness :
  @prepareTransferParams Reference.util Scenario.primary
      Scenario.requestWithoutAssetsSigned []
    = (Throw (ErrCollaborator "assets list is empty"), []).
Proof.
  exact (proj1 (@validation_and_network Reference.util Scenario.primary
                  Scenario.requestWithoutAssetsSigned []
                  (ErrCollaborator "assets list is empty") eq_refl)
           (SystemSigned "0xa11ce") eq_refl).
Defined.

(** C9, as it is written, fails: a request with a named origin and an empty
    asset list is refused by the validation only after the
    location-to-account runtime call for the origin has been made. *)
Lemma validation_after_origin_call :
  @sanitizeTransferParams Reference.util Scenario.requestWithoutAssets
    = Some (ErrCollaborator "assets list is empty")
  /\ @prepareTransferParams Reference.util Scenario.primary
       Scenario.requestWithoutAssets []
     = (Throw (ErrCollaborator "assets list is empty"),
        [ConvertLocationCall
           {| vl_version := 4;
              vl_location := {| parents := 0;
                                interior := [AccountId32 None "alice"] |} |}])
  /\ snd (@prepareTransferParams Reference.util Scenario.primary
            Scenario.requestWithoutAssets []) <> [].
Proof.
  split; [reflexivity |]. split; [reflexivity | discriminate].
Qed.

(** ** The xTokens backend *)

Section XTokensFacts.
Context `{XcmUtil}.

(** C7.  A transfer composed by the xTokens backend, once the parameters
    are prepared.  If the beneficiary's [parents] is not 0 the composition
    fails there with the error asking for an interior location, and nothing
    is estimated.  Otherwise the destination and beneficiary junctions are
    put one after the other under the destination's [parents], and every
    transaction the composition returns has that location, tagged with the
    active version, for destination.  When the active version can express
    the location and the chain's [xTokens] pallet has [transferMultiassets],
    the candidate transaction is built with that destination and is what
    the one estimation is asked about; when the pallet or the extrinsic is
    missing the call is a [TypeError] and there is no candidate; when the
    version cannot express the location the conversion fails and there is
    no candidate either. *)
Theorem xTokens_destination (this : SimpleXcm) (transferParams : TransferParams)
    (w w1 : Trace) (p : PreparedTransferParams) :
  prepareTransferParams this transferParams w = (Ok p, w1) ->
  let combined :=
    {| parents := parents (destination p);
       interior := interior (destination p) ++ interior (beneficiary p) |} in
  let versioned := {| vl_version := xcmVersion this; vl_location := combined |} in
  let candidate :=
    TransferMultiassets "xTokens" (assets p) (feeAssetIndex p) versioned Unlimited in
  (parents (beneficiary p) <> 0 ->
     XTokensBackend_composeTransfer this transferParams w
       = (Throw (ErrBeneficiaryNotInterior (parents (beneficiary p))), w1))
  /\ (parents (beneficiary p) = 0 ->
      (forall t,
         fst (XTokensBackend_composeTransfer this transferParams w) = Ok t ->
         txDestination t = versioned)
      /\ (versionSupports (xcmVersion this) combined = true ->
          (forall extrinsics,
             tx (api this) !! "xTokens"%string = Some extrinsics ->
             "transferMultiassets"%string ∈ extrinsics ->
             txDestination candidate = versioned
             /\ snd (XTokensBackend_composeTransfer this transferParams w)
                  = w1 ++ [EstimateFeesCall (origin p) candidate (feeAssetId p)])
          /\ (tx (api this) !! "xTokens"%string = None
              \/ (exists extrinsics,
                    tx (api this) !! "xTokens"%string = Some extrinsics
                    /\ "transferMultiassets"%string ∉ extrinsics) ->
              XTokensBackend_composeTransfer this transferParams w
                = (Throw ErrTypeError, w1)))
      /\ (versionSupports (xcmVersion this) combined = false ->
          XTokensBackend_composeTransfer this transferParams w
            = (Throw (ErrUnsupportedAtVersion (xcmVersion this)), w1))).
Proof.
  intros Hprep combined versioned candidate.
  unfold XTokensBackend_composeTransfer.
  rewrite !(bind_run _ _ _ _ _ Hprep).
  split.
  - intros Hpar. apply Nat.eqb_neq in Hpar. now rewrite Hpar.
  - intros Hpar. rewrite Hpar. cbn [Nat.eqb negb].
    unfold toJunctions, location, convertLocationVersion. fold combined.
    assert (Hrun : forall extrinsics,
              tx (api this) !! "xTokens"%string = Some extrinsics ->
              "transferMultiassets"%string ∈ extrinsics ->
              forall k : unit -> M Tx,
                bind (lift (extrinsicOf this "xTokens" "transferMultiassets")) k w1
                  = k tt w1).
    { intros extrinsics Hpallet Hin k. unfold bind, lift, extrinsicOf.
      now rewrite Hpallet, bool_decide_eq_true_2. }
    assert (Hafter : forall value : option Z,
              exists r,
                (let* preparedParams' :=
                   match value with
                   | Some v => lift (addToFeeFungible v p)
                   | None => ret p
                   end in
                 ret (TransferMultiassets "xTokens" (assets preparedParams')
                        (feeAssetIndex preparedParams') versioned Unlimited))
                  (w1 ++ [EstimateFeesCall (origin p) candidate (feeAssetId p)])
                  = (r, w1 ++ [EstimateFeesCall (origin p) candidate (feeAssetId p)])
                /\ forall t, r = Ok t -> txDestination t = versioned).
    { intros [v |]; unfold bind, lift, ret.
      - destruct (addToFeeFungible v p) as [p' | e']; eexists; split;
          try reflexivity; [now intros t [= <-] | discriminate].
      - eexists. split; [reflexivity | now intros t [= <-]]. }
    assert (Hestimated :
              exists r,
                (let* estimatedFees :=
                   tryEstimateExtrinsicXcmFees this (origin p) candidate (feeAssetId p) in
                 let* preparedParams' :=
                   match estimatedFees with
                   | EstValue value => lift (addToFeeFungible value p)
                   | EstError _ => ret p
                   end in
                 ret (TransferMultiassets "xTokens" (assets preparedParams')
                        (feeAssetIndex preparedParams') versioned Unlimited)) w1
                  = (r, w1 ++ [EstimateFeesCall (origin p) candidate (feeAssetId p)])
                /\ forall t, r = Ok t -> txDestination t = versioned).
    { pose proof (tryEstimate_trace this (origin p) candidate (feeAssetId p) w1) as Htrace.
      unfold bind at 1.
      destruct (tryEstimateExtrinsicXcmFees this (origin p) candidate (feeAssetId p) w1)
        as [[[value | missing] | e] w2]; simpl in Htrace; subst w2.
      - exact (Hafter (Some value)).
      - exact (Hafter None).
      - eexists. split; [reflexivity | discriminate]. }
    split; [| split].
    + intros t.
      destruct (versionSupports (xcmVersion this) combined); [| discriminate].
      fold versioned. rewrite (bind_run (lift (Ok versioned)) _ w1 w1 versioned eq_refl).
      fold candidate. unfold bind at 1. unfold lift at 1. unfold extrinsicOf.
      destruct (tx (api this) !! "xTokens"%string) as [extrinsics |]; [| discriminate].
      destruct (bool_decide ("transferMultiassets"%string ∈ extrinsics)); [| discriminate].
      destruct Hestimated as (r & Hr & Hdest). rewrite Hr. exact (Hdest t).
    + intros Hsup. rewrite Hsup. fold versioned.
      rewrite !(bind_run (lift (Ok versioned)) _ w1 w1 versioned eq_refl).
      fold candidate. split.
      * intros extrinsics Hpallet Hin. split; [reflexivity |].
        rewrite (Hrun extrinsics Hpallet Hin).
        destruct Hestimated as (r & Hr & _). now rewrite Hr.
      * intros Hmissing. unfold bind at 1. unfold lift at 1. unfold extrinsicOf.
        destruct Hmissing as [-> | (extrinsics & -> & Hnot)]; [reflexivity |].
        now rewrite bool_decide_eq_false_2.
    + intros Hsup. now rewrite Hsup.
Qed.

End XTokensFacts.

Lemma xTokens_destination_witness :
  @XTokensBackend_composeTransfer Reference.util Scenario.onXTokens
     Scenario.requestBeneficiaryAbove []
    = (Throw (ErrBeneficiaryNotInterior 1), [])
  /\ snd (@XTokensBackend_composeTransfer Reference.util Scenario.onXTokens
            Scenario.request [])
     = [ConvertLocationCall
          {| vl_version := 4;
             vl_location := {| parents := 0; interior := [AccountId32 None "alice"] |} |}]
       ++ [EstimateFeesCall (origin Scenario.prepared)
             (TransferMultiassets "xTokens" (assets Scenario.prepared) 0
                {| vl_version := 4;
                   vl_location :=
                     {| parents := 1;
                        interior := [Parachain 1000; AccountId32 None "bob"] |} |}
                Unlimited)
             (feeAssetId Scenario.prepared)]
  /\ @XTokensBackend_composeTransfer Reference.util Scenario.primary Scenario.request []
     = (Throw ErrTypeError,
        [ConvertLocationCall
           {| vl_version := 4;
              vl_location := {| parents := 0; interior := [AccountId32 None "alice"] |} |}]).
Proof.
  split; [| split].
  - refine (proj1 (@xTokens_destination Reference.util Scenario.onXTokens
                     Scenario.requestBeneficiaryAbove [] []
                     {| origin := SystemSigned "0xa11ce";
                        assets := {| va_version := 4;
                                     va_assets := [ {| id := Scenario.dot;
                                                       fun_ := Fungible 10 |} ] |};
                        feeAssetId := Scenario.dot;
                        feeAssetIndex := 0;
                        feeAnyAssetRef := 0;
                        destination := {| parents := 1; interior := [Parachain 1000] |};
                        beneficiary := {| parents := 1;
                                          interior := [AccountId32 None "bob"] |} |}
                     eq_refl) _).
    simpl. lia.
  - pose proof (@xTokens_destination Reference.util Scenario.onXTokens Scenario.request []
                  [ConvertLocationCall
                     {| vl_version := 4;
                        vl_location := {| parents := 0;
                                          interior := [AccountId32 None "alice"] |} |}]
                  Scenario.prepared eq_refl) as [_ Hinterior].
    destruct (Hinterior eq_refl) as (_ & Hsupported & _).
    destruct (Hsupported eq_refl) as [Hbuilt _].
    refine (proj2 (Hbuilt ["transfer"; "transferMultiassets"]%string eq_refl _)).
    apply list_elem_of_further, list_elem_of_here.
  - pose proof (@xTokens_destination Reference.util Scenario.primary Scenario.request []
                  [ConvertLocationCall
                     {| vl_version := 4;
                        vl_location := {| parents := 0;
                                          interior := [AccountId32 None "alice"] |} |}]
                  Scenario.prepared eq_refl) as [_ Hinterior].
    destruct (Hinterior eq_refl) as (_ & Hsupported & _).
    destruct (Hsupported eq_refl) as [_ Hmissing].
    apply Hmissing. left. reflexivity.
Defined.

(** ** The whole composition on the sample chain *)

(** With three rounds the pallet-xcm backend returns the transaction whose
    fee asset went from 10 to 15, after one location-to-account call, three
    estimations and one dry run; with two rounds the loop is cut short. *)
Example composeTransfer_three_rounds :
  exists t w,
    @composeTransfer Reference.util 3 Scenario.primary Scenario.request []
      = (Some (Ok t), w)
    /\ t = transferAssetsTx Scenario.primary Scenario.toAssetHub Scenario.toBob
             (setFeeFungible 15 Scenario.prepared)
    /\ length w = 5
    /\ estimateCalls w = 3.
Proof. eexists _, _. repeat split; reflexivity. Qed.

Example composeTransfer_two_rounds :
  fst (@composeTransfer Reference.util 2 Scenario.primary Scenario.request []) = None.
Proof. reflexivity. Qed.

(** * Further properties *)

(** ** Amount conversion: outcomes and trailing zeros *)

Section AmountOutcomes.
Import Js Amount.
Local Open Scope Z_scope.

Lemma isSafeInteger_small (d : Z) : 0 <= d <= 38 -> isSafeInteger d = true.
Proof.
  intros Hd. unfold isSafeInteger. change (2 ^ 53) with 9007199254740992.
  apply andb_true_intro. split; apply Z.leb_le; lia.
Qed.

Lemma decimals_accepted (d : Z) :
  0 <= d <= 38 ->
  negb (isSafeInteger d) || (d <? 0) || (38 <? d) = false.
Proof.
  intros Hd. rewrite (isSafeInteger_small d Hd). cbn [negb orb].
  destruct (Z.ltb_spec d 0); [lia |]. destruct (Z.ltb_spec 38 d); [lia | reflexivity].
Qed.

Lemma digitValue_nonneg (c : ascii) : isDigit c = true -> 0 <= digitValue c.
Proof.
  unfold isDigit, digitValue. intros Hd. apply andb_prop in Hd as [Hlo _].
  apply N.leb_le in Hlo. lia.
Qed.

Lemma digitsValueFrom_nonneg (s : string) (acc : Z) :
  0 <= acc -> allDigits s = true -> 0 <= digitsValueFrom acc s.
Proof.
  revert acc. induction s as [| c s IH]; intros acc Hacc Hs; [exact Hacc |].
  simpl in Hs. apply andb_prop in Hs as [Hc Hs]. simpl. apply IH; [| exact Hs].
  pose proof (digitValue_nonneg c Hc). lia.
Qed.

Lemma fractionOf_allDigits (rest f : string) : fractionOf rest f -> allDigits f = true.
Proof. intros [[_ ->] | (_ & _ & Hf)]; [reflexivity | exact Hf]. Qed.

Lemma padEnd_long (f : string) (d : Z) :
  d < Z.of_nat (String.length f) -> padEnd f (Z.to_nat d) "0"%char = f.
Proof.
  intros Hlong. unfold padEnd.
  replace (Z.to_nat d - String.length f)%nat with 0%nat by lia.
  apply append_empty_r.
Qed.

(** X1.  The four outcomes of [#convertFungibleAmount], in the order the
    checks are made: a malformed amount is refused whatever the decimals;
    a well-formed amount with decimals outside 0..38 is refused for the
    decimals (0 is accepted); a decimal part with more digits than the
    decimals is refused, and the error carries its length; every other
    input is converted, to the non-negative integer written by the digits
    of the amount with the dot taken out, followed by as many zeros as the
    decimal part is short of the decimals. *)
Theorem convertFungibleAmount_outcomes (amount : string) (decimals : Z) :
  let integerPart := nth 0 (split "."%char amount) EmptyString in
  let decimalPart := nth 1 (split "."%char amount) EmptyString in
  (numberRegEx_test amount = false ->
     convertFungibleAmount amount decimals = Throw ErrInvalidAmountFormat)
  /\ (numberRegEx_test amount = true -> decimals < 0 \/ 38 < decimals ->
      convertFungibleAmount amount decimals = Throw ErrIncorrectDecimals)
  /\ (numberRegEx_test amount = true -> 0 <= decimals <= 38 ->
      decimals < Z.of_nat (String.length decimalPart) ->
      convertFungibleAmount amount decimals
        = Throw (ErrDecimalPartTooLong (String.length decimalPart) decimals))
  /\ (numberRegEx_test amount = true -> 0 <= decimals <= 38 ->
      Z.of_nat (String.length decimalPart) <= decimals ->
      exists value,
        convertFungibleAmount amount decimals = Ok value
        /\ 0 <= value
        /\ value = digitsValueFrom 0 (integerPart ++ decimalPart)
                   * 10 ^ (decimals - Z.of_nat (String.length decimalPart))).
Proof.
  intros integerPart decimalPart. unfold convertFungibleAmount.
  fold integerPart decimalPart.
  split; [intros ->; reflexivity |].
  split.
  { intros -> Hout. cbn [negb].
    assert (Hbad : negb (isSafeInteger decimals) || (decimals <? 0) || (38 <? decimals) = true).
    { destruct Hout as [Hneg | Hbig].
      - apply Z.ltb_lt in Hneg. rewrite Hneg. now rewrite orb_true_r.
      - apply Z.ltb_lt in Hbig. rewrite Hbig. now rewrite orb_true_r. }
    now rewrite Hbad. }
  split.
  { intros -> Hd Hlong. cbn [negb]. rewrite (decimals_accepted decimals Hd).
    rewrite (padEnd_long decimalPart decimals Hlong).
    destruct (Z.gtb_spec (Z.of_nat (String.length decimalPart)) decimals); [reflexivity | lia]. }
  intros Hre Hd Hfits. rewrite Hre. cbn [negb]. rewrite (decimals_accepted decimals Hd).
  destruct (numberRegEx_shape _ Hre) as (i & rest & f & Hamount & _ & Hi & Hf).
  subst amount. destruct (split_shape i rest f Hi Hf) as [Hint Hdec].
  subst integerPart decimalPart. rewrite Hint, Hdec in *.
  pose proof (fractionOf_allDigits rest f Hf) as Hf'.
  unfold padEnd. rewrite length_append, length_repeatChar.
  destruct (Z.gtb_spec (Z.of_nat (String.length f + (Z.to_nat decimals - String.length f))) decimals)
    as [Hgt | _]; [lia |].
  unfold BigInt. rewrite bigIntAcc_allDigits
    by (rewrite !allDigits_append, Hi, Hf', allDigits_zeros; reflexivity).
  eexists. split; [reflexivity |]. split.
  - apply digitsValueFrom_nonneg; [lia |].
    rewrite !allDigits_append, Hi, Hf', allDigits_zeros. reflexivity.
  - rewrite !digitsValueFrom_append, digitsValueFrom_zeros. do 2 f_equal. lia.
Qed.

Lemma convertFungibleAmount_outcomes_witness :
  convertFungibleAmount "12.5" 40 = Throw ErrIncorrectDecimals
  /\ convertFungibleAmount "12.5" 0 = Throw (ErrDecimalPartTooLong 1 0)
  /\ exists value,
       convertFungibleAmount "7" 0 = Ok value
       /\ 0 <= value
       /\ value = digitsValueFrom 0 ("7" ++ "") * 10 ^ (0 - Z.of_nat 0).
Proof.
  split; [| split].
  - apply (proj1 (proj2 (convertFungibleAmount_outcomes "12.5" 40)));
      [reflexivity | right; lia].
  - apply (proj1 (proj2 (proj2 (convertFungibleAmount_outcomes "12.5" 0))));
      [reflexivity | lia | simpl; lia].
  - apply (proj2 (proj2 (proj2 (convertFungibleAmount_outcomes "7" 0))));
      [reflexivity | lia | simpl; lia].
Defined.

Lemma digits1_append_zero (r : string) :
  digits1 r = true -> digits1 (r ++ "0") = true.
Proof.
  destruct r as [| c r]; [discriminate |]. intros Hr.
  rewrite append_cons. cbn [digits1]. rewrite <- append_cons, allDigits_append.
  cbn [digits1] in Hr. now rewrite Hr.
Qed.

Lemma optFraction_append_zero (r : string) :
  r <> EmptyString -> optFraction r = true -> optFraction (r ++ "0") = true.
Proof.
  destruct r as [| c r]; [congruence |]. intros _ Hr.
  rewrite append_cons. cbn [optFraction] in *.
  apply andb_prop in Hr as [-> Hr]. now rewrite (digits1_append_zero r Hr).
Qed.

Lemma digitsThenFraction_append_zero (i f : string) :
  allDigits i = true -> digits1 f = true ->
  digitsThenFraction (i ++ String "."%char (f ++ "0")) = true.
Proof.
  intros Hi Hf. induction i as [| c i IH].
  - rewrite append_empty_l.
    change (digitsThenFraction (String "."%char (f ++ "0")))
      with (optFraction (String "."%char (f ++ "0"))).
    cbn [optFraction]. now rewrite (digits1_append_zero f Hf).
  - simpl in Hi. apply andb_prop in Hi as [Hc Hi]. rewrite append_cons.
    change (digitsThenFraction (String c (i ++ String "."%char (f ++ "0"))))
      with (if isDigit c then digitsThenFraction (i ++ String "."%char (f ++ "0"))
            else optFraction (String c (i ++ String "."%char (f ++ "0")))).
    rewrite Hc. exact (IH Hi).
Qed.

Lemma append_assoc (s t u : string) : ((s ++ t) ++ u)%string = (s ++ (t ++ u))%string.
Proof.
  induction s as [| c s IH]; [reflexivity |]. now rewrite !append_cons, IH.
Qed.

Lemma numberRegEx_append_zero (i f : string) :
  f <> EmptyString -> allDigits f = true ->
  numberRegEx_test (i ++ String "."%char f) = true ->
  allDigits i = true ->
  numberRegEx_test (i ++ String "."%char (f ++ "0")) = true.
Proof.
  intros Hne Hf Hre Hi.
  assert (Hf1 : digits1 f = true) by (destruct f; [congruence | exact Hf]).
  destruct i as [| c i].
  - rewrite append_empty_l in Hre. discriminate Hre.
  - rewrite append_cons in *. unfold numberRegEx_test in *.
    destruct (Ascii.eqb c "0"%char).
    + destruct i as [| c' i].
      * rewrite append_empty_l in *. cbn [optFraction]. now rewrite (digits1_append_zero f Hf1).
      * rewrite append_cons in Hre. cbn [optFraction] in Hre.
        simpl in Hi. apply andb_prop in Hi as [_ Hi]. apply andb_prop in Hi as [Hc' _].
        rewrite (isDigit_not_dot _ Hc') in Hre. discriminate Hre.
    + destruct (isNonZeroDigit c); [| discriminate Hre].
      simpl in Hi. apply andb_prop in Hi as [_ Hi].
      now apply digitsThenFraction_append_zero.
Qed.

Lemma repeatChar_succ (k : nat) (c : ascii) :
  (String c EmptyString ++ repeatChar k c)%string = repeatChar (S k) c.
Proof. reflexivity. Qed.

(** X2.  A zero written after the decimal part does not change the
    result: when an amount with a decimal part is converted and the
    decimal part is shorter than the decimals, the amount followed by
    ["0"] is converted to the same integer. *)
Theorem convertFungibleAmount_trailing_zero (amount : string) (decimals value : Z) :
  nth 1 (split "."%char amount) EmptyString <> EmptyString ->
  Z.of_nat (String.length (nth 1 (split "."%char amount) EmptyString)) < decimals ->
  convertFungibleAmount amount decimals = Ok value ->
  convertFungibleAmount (amount ++ "0") decimals = Ok value.
Proof.
  intros Hpart Hshort Hok. unfold convertFungibleAmount in Hok.
  destruct (numberRegEx_test amount) eqn:Hre; [| discriminate Hok]. cbn [negb] in Hok.
  destruct (numberRegEx_shape _ Hre) as (i & rest & f & -> & _ & Hi & Hf).
  destruct (split_shape i rest f Hi Hf) as [Hint Hdec]. rewrite Hint, Hdec in *.
  destruct Hf as [[_ ->] | (-> & Hne & Hf)]; [congruence |].
  destruct (negb (isSafeInteger decimals) || (decimals <? 0) || (38 <? decimals)) eqn:Hd;
    [discriminate Hok |].
  destruct (Z.of_nat (String.length (padEnd f (Z.to_nat decimals) "0")) >? decimals);
    [discriminate Hok |].
  assert (Hf0 : allDigits (f ++ "0") = true) by (rewrite allDigits_append, Hf; reflexivity).
  assert (Hshape : fractionOf (String "."%char (f ++ "0")) (f ++ "0")).
  { right. repeat split; [| exact Hf0]. destruct f; discriminate. }
  unfold convertFungibleAmount.
  rewrite append_assoc, append_cons.
  rewrite (numberRegEx_append_zero i f Hne Hf Hre Hi). cbn [negb].
  destruct (split_shape i _ _ Hi Hshape) as [-> ->]. rewrite Hd.
  assert (Hpad : padEnd (f ++ "0") (Z.to_nat decimals) "0"%char
                 = padEnd f (Z.to_nat decimals) "0"%char).
  { unfold padEnd. rewrite length_append. cbn [String.length].
    replace (Z.to_nat decimals - String.length f)%nat
      with (S (Z.to_nat decimals - (String.length f + 1)))%nat by lia.
    now rewrite append_assoc, repeatChar_succ. }
  rewrite Hpad.
  destruct (Z.gtb_spec (Z.of_nat (String.length (padEnd f (Z.to_nat decimals) "0"))) decimals)
    as [Hgt | _].
  - unfold padEnd in Hgt. rewrite length_append, length_repeatChar in Hgt. lia.
  - exact Hok.
Qed.

Lemma convertFungibleAmount_trailing_zero_witness :
  convertFungibleAmount ("1.5" ++ "0") 10 = Ok 15000000000.
Proof.
  apply convertFungibleAmount_trailing_zero.
  - discriminate.
  - simpl. lia.
  - reflexivity.
Defined.

End AmountOutcomes.

(** ** The active version over a series of [enforceXcmVersion] calls *)

Lemma last_cons_default {A} (x d : A) (l : list A) :
  List.last (x :: l) d = List.last l x.
Proof.
  revert x d. induction l as [| y l IH]; intros x d; [reflexivity |].
  change (List.last (x :: y :: l) d) with (List.last (y :: l) d).
  now rewrite (IH y d), (IH y x).
Qed.

Lemma enforceAll_from (versions : list XcmVersion) (s : SimpleXcm) :
  xcmVersion (enforceAll versions s)
    = List.last (List.filter (fun v => v <=? estimator_xcmVersion s) versions)
        (xcmVersion s)
  /\ estimator_xcmVersion (enforceAll versions s) = estimator_xcmVersion s
  /\ api (enforceAll versions s) = api s
  /\ registry (enforceAll versions s) = registry s
  /\ chainInfo (enforceAll versions s) = chainInfo s
  /\ palletXcm (enforceAll versions s) = palletXcm s.
Proof.
  revert s. induction versions as [| v versions IH]; intros s; [now repeat split |].
  change (enforceAll (v :: versions) s)
    with (enforceAll versions (snd (enforceXcmVersion v s))).
  destruct (IH (snd (enforceXcmVersion v s))) as (Hv & He & Ha & Hr & Hc & Hp).
  rewrite Hv, He, Ha, Hr, Hc, Hp. clear IH Hv He Ha Hr Hc Hp.
  unfold enforceXcmVersion. cbn [List.filter].
  destruct (Nat.ltb_spec (estimator_xcmVersion s) v) as [Hhigh | Hlow]; cbn [snd].
  - destruct (Nat.leb_spec v (estimator_xcmVersion s)); [lia |]. now repeat split.
  - destruct (Nat.leb_spec v (estimator_xcmVersion s)); [| lia].
    cbn [xcmVersion estimator_xcmVersion api registry chainInfo palletXcm].
    rewrite last_cons_default. now repeat split.
Qed.

(** X3.  An instance built by the constructor and taken through any
    series of [enforceXcmVersion] calls, failed ones included: its active
    version is the last requested version that the chain supports, or the
    chain's maximum when there was none; it never exceeds that maximum; and
    the maximum, the API, the registry, the chain identity and the pallet
    name are those the constructor was given. *)
Theorem enforceAll_active_version (apiPromise : Api) (knownRegistry : Registry)
    (identity : ChainIdentity) (palletXcmName : string) (maxVersion : XcmVersion)
    (versions : list XcmVersion) :
  let this :=
    enforceAll versions
      (newSimpleXcm apiPromise knownRegistry identity palletXcmName maxVersion) in
  xcmVersion this
    = List.last (List.filter (fun v => v <=? maxVersion) versions) maxVersion
  /\ xcmVersion this <= maxVersion
  /\ estimator_xcmVersion this = maxVersion
  /\ api this = apiPromise /\ registry this = knownRegistry
  /\ chainInfo this = identity /\ palletXcm this = palletXcmName.
Proof.
  intros this. subst this.
  destruct (enforceAll_from versions
              (newSimpleXcm apiPromise knownRegistry identity palletXcmName maxVersion))
    as (Hv & He & Ha & Hr & Hc & Hp).
  cbn [newSimpleXcm xcmVersion estimator_xcmVersion api registry chainInfo palletXcm] in *.
  repeat split; try assumption.
  rewrite Hv. clear.
  assert (Hall : Forall (fun v => v <= maxVersion)
                   (List.filter (fun v => v <=? maxVersion) versions)).
  { apply Forall_forall. intros v Hin. apply list_elem_of_In, List.filter_In in Hin as [_ Hle].
    now apply Nat.leb_le. }
  revert Hall. generalize (List.filter (fun v => v <=? maxVersion) versions).
  intros l. assert (Hd : maxVersion <= maxVersion) by lia. revert Hd.
  generalize maxVersion at 1 4 as d.
  induction l as [| x l IH]; intros d Hd Hall; [exact Hd |].
  rewrite last_cons_default. inversion Hall; subst. now apply IH.
Qed.

(** ** Turning a location into an account *)

Section AccountFacts.
Context `{XcmUtil}.

Lemma locationToAccountId_location_Ok (this : SimpleXcm) (l : Location)
    (w w' : Trace) (hex : string) :
  locationToAccountId_location this l w = (Ok hex, w') ->
  exists convertLocation,
    locationToAccountApi (api this) = Some convertLocation
    /\ sanitizeLookup l = None
    /\ convertLocation {| vl_version := 4; vl_location := l |} = inl hex
    /\ w' = w ++ [ConvertLocationCall {| vl_version := 4; vl_location := l |}].
Proof.
  unfold locationToAccountId_location.
  destruct (locationToAccountApi (api this)) as [convertLocation |]; [| discriminate].
  unfold bind, lift, emit, ret, throw.
  destruct (sanitizeLookup l) as [e |]; [discriminate |]. cbn [check].
  destruct (convertLocation _) as [answer | err] eqn:Hanswer; [| discriminate].
  intros [= -> <-]. now exists convertLocation.
Qed.

Lemma locationToAccountId_location_v4 (this : SimpleXcm) (l : Location) (w : Trace) :
  snd (locationToAccountId_location this l w) = w
  \/ snd (locationToAccountId_location this l w)
       = w ++ [ConvertLocationCall {| vl_version := 4; vl_location := l |}].
Proof.
  unfold locationToAccountId_location.
  destruct (locationToAccountApi (api this)) as [convertLocation |]; [| now left].
  unfold bind, lift, emit. destruct (check (sanitizeLookup l)); [| now left].
  right. destruct (convertLocation _); reflexivity.
Qed.

(** X4.  [locationToAccountId]: on a chain without the location-to-account
    API it fails for that reason before the lookup is even resolved, and
    calls nothing; an account is returned only after exactly one runtime
    call, made about the location the lookup resolves to, sanitized, and
    wrapped as version 4 whatever the active version is; and no invocation
    makes more than that one call. *)
Theorem locationToAccountId_calls (this : SimpleXcm) (lookup : Lookup) (w : Trace) :
  (locationToAccountApi (api this) = None ->
     locationToAccountId this lookup w
       = (Throw (ErrNoLocationToAccountApi (name (chainInfo this))), w))
  /\ (forall hex w',
        locationToAccountId this lookup w = (Ok hex, w') ->
        exists convertLocation l,
          locationToAccountApi (api this) = Some convertLocation
          /\ match lookup with
             | Named key => resolveRelativeLocation this (OfLookup (Named key)) = Ok l
             | Given given => given = l
             end
          /\ sanitizeLookup l = None
          /\ convertLocation {| vl_version := 4; vl_location := l |} = inl hex
          /\ w' = w ++ [ConvertLocationCall {| vl_version := 4; vl_location := l |}])
  /\ (snd (locationToAccountId this lookup w) = w
      \/ exists l,
           snd (locationToAccountId this lookup w)
             = w ++ [ConvertLocationCall {| vl_version := 4; vl_location := l |}]).
Proof.
  unfold locationToAccountId. split; [| split].
  - now intros ->.
  - intros hex w' Hrun.
    destruct (locationToAccountApi (api this)) as [convertLocation |] eqn:Hapi;
      [| discriminate Hrun].
    destruct lookup as [key | given].
    + unfold bind, lift in Hrun.
      destruct (resolveRelativeLocation this (OfLookup (Named key))) as [l | e];
        [| discriminate Hrun].
      destruct (locationToAccountId_location_Ok _ _ _ _ _ Hrun) as (c & Hc & Hrest).
      rewrite Hapi in Hc. injection Hc as <-. now exists convertLocation, l.
    + destruct (locationToAccountId_location_Ok _ _ _ _ _ Hrun) as (c & Hc & Hrest).
      rewrite Hapi in Hc. injection Hc as <-. now exists convertLocation, given.
  - destruct (locationToAccountApi (api this)) as [convertLocation |]; [| now left].
    destruct lookup as [key | given].
    + unfold bind, lift.
      destruct (resolveRelativeLocation this (OfLookup (Named key))) as [l | e]; [| now left].
      destruct (locationToAccountId_location_v4 this l w) as [-> | ->]; [now left |].
      right. now exists l.
    + destruct (locationToAccountId_location_v4 this given w) as [-> | ->]; [now left |].
      right. now exists given.
Qed.

End AccountFacts.

Lemma locationToAccountId_calls_witness :
  @locationToAccountId Reference.util Samples.withoutAccountApi (Named "Nobody") []
    = (Throw (ErrNoLocationToAccountApi "Unique"), [])
  /\ exists convertLocation l,
       locationToAccountApi (api (enforceAll [3] Scenario.primary)) = Some convertLocation
       /\ @resolveRelativeLocation Reference.util (enforceAll [3] Scenario.primary)
            (OfLookup (Named "Alice")) = Ok l
       /\ @sanitizeLookup Reference.util l = None
       /\ convertLocation {| vl_version := 4; vl_location := l |} = inl "0xa11ce"%string
       /\ [ConvertLocationCall
             {| vl_version := 4;
                vl_location := {| parents := 0; interior := [AccountId32 None "alice"] |} |}]
          = [] ++ [ConvertLocationCall {| vl_version := 4; vl_location := l |}].
Proof.
  split.
  - exact (proj1 (@locationToAccountId_calls Reference.util Samples.withoutAccountApi
                    (Named "Nobody") []) eq_refl).
  - exact (proj1 (proj2 (@locationToAccountId_calls Reference.util
                           (enforceAll [3] Scenario.primary) (Named "Alice") []))
             "0xa11ce"%string _ eq_refl).
Defined.

(** ** What prepared parameters say about the request *)

Section PreparedFacts.
Context `{XcmUtil}.

Ltac unbind Hrun :=
  repeat match type of Hrun with
         | bind (lift _) _ _ = (Ok _, _) =>
             let a := fresh "a" in
             let w1 := fresh "w" in
             let Hstep := fresh "Hstep" in
             apply bind_Ok_inv in Hrun as (a & w1 & Hstep & Hrun);
             apply lift_Ok_inv in Hstep as [Hstep ->]
         | bind _ _ _ = (Ok _, _) =>
             let a := fresh "a" in
             let w1 := fresh "w" in
             let Hstep := fresh "Hstep" in
             apply bind_Ok_inv in Hrun as (a & w1 & Hstep & Hrun)
         end.

Lemma rmap_resolveRelativeAsset (this : SimpleXcm) (lookups : list AssetLookup) :
  forall resolved,
    rmap (resolveRelativeAsset this) lookups = Ok resolved ->
    Forall2 (fun a r =>
               resolveRelativeLocation this (OfLookup (al_id a)) = Ok (id r)
               /\ fun_ r = al_fun a) lookups resolved.
Proof.
  induction lookups as [| a lookups IH]; intros resolved Hmap.
  - injection Hmap as <-. constructor.
  - cbn [rmap] in Hmap. unfold resolveRelativeAsset at 1 in Hmap.
    destruct (resolveRelativeLocation this (OfLookup (al_id a))) as [l | e] eqn:Hl;
      [| discriminate Hmap].
    cbn [rbind] in Hmap.
    destruct (rmap (resolveRelativeAsset this) lookups) as [rest | e];
      [| discriminate Hmap].
    injection Hmap as <-. constructor; [now split | now apply IH].
Qed.

(** X5.  Resolving the assets of a request, when it succeeds, keeps
    their number, their order and their fungibility: the entry at each
    position has the location its lookup resolves to and the very [fun] of
    the request.  When the lookup of some asset fails while those before it
    resolve, the whole resolution fails with that asset's error. *)
Theorem resolved_assets_in_order (this : SimpleXcm) (lookups : list AssetLookup) :
  (forall resolved,
     rmap (resolveRelativeAsset this) lookups = Ok resolved ->
     length resolved = length lookups
     /\ map fun_ resolved = map al_fun lookups
     /\ forall i a, lookups !! i = Some a ->
          exists r, resolved !! i = Some r
                    /\ resolveRelativeLocation this (OfLookup (al_id a)) = Ok (id r)
                    /\ fun_ r = al_fun a)
  /\ (forall before a after e,
        lookups = before ++ a :: after ->
        Forall (fun x => exists l,
                  resolveRelativeLocation this (OfLookup (al_id x)) = Ok l) before ->
        resolveRelativeLocation this (OfLookup (al_id a)) = Throw e ->
        rmap (resolveRelativeAsset this) lookups = Throw e).
Proof.
  split.
  - intros resolved Hmap. apply rmap_resolveRelativeAsset in Hmap.
    split; [symmetry; exact (Forall2_length _ _ _ Hmap) |]. split.
    + induction Hmap as [| a r lookups resolved [_ Hfun] _ IH]; [reflexivity |].
      cbn [map]. now rewrite Hfun, IH.
    + intros i a Ha.
      destruct (Forall2_lookup_l _ _ _ _ _ Hmap Ha) as (r & Hr & Hid & Hfun).
      now exists r.
  - intros before a after e -> Hbefore Hfail.
    induction Hbefore as [| x before [l Hl] _ IH].
    + cbn [app rmap]. unfold resolveRelativeAsset at 1. now rewrite Hfail.
    + cbn [app rmap]. unfold resolveRelativeAsset at 1. rewrite Hl. cbn [rbind].
      now rewrite IH.
Qed.

(** X6.  With the origin given as such, [prepareTransferParams] does not
    talk to the chain at all, whether it succeeds or fails, and the origin
    of the parameters it returns is the one given. *)
Theorem prepare_given_origin_is_local (simpleXcm : SimpleXcm)
    (transferParams : TransferParams) (o : Origin) (w : Trace) :
  tp_origin transferParams = OriginGiven o ->
  snd (prepareTransferParams simpleXcm transferParams w) = w
  /\ forall p, fst (prepareTransferParams simpleXcm transferParams w) = Ok p ->
       origin p = o.
Proof.
  intros Ho. split.
  - rewrite prepareTransferParams_trace.
    pose proof (resolveTransferParams_after_origin simpleXcm transferParams w) as Hafter.
    now rewrite Ho in Hafter.
  - intros p Hp.
    destruct (prepareTransferParams simpleXcm transferParams w) as [r w'] eqn:Hrun.
    simpl in Hp. subst r. unfold prepareTransferParams in Hrun.
    apply bind_Ok_inv in Hrun as (r & w1 & Hres & Hfind).
    unfold resolveTransferParams in Hres. rewrite Ho in Hres.
    apply bind_Ok_inv in Hres as (o' & w2 & Horigin & Hres).
    unfold ret in Horigin. injection Horigin as <- <-.
    unbind Hres. unfold ret in Hres. injection Hres as <- _.
    destruct (findFeeAssetById _ _) as [[? ?] |]; [| discriminate Hfind].
    unfold ret in Hfind. now injection Hfind as <- _.
Qed.

(** X7.  What a successful [prepareTransferParams] guarantees about the
    request: the structural validation accepted it; destination,
    beneficiary and fee-asset id are what the resolver answers for the
    request's lookups; the asset vector is what [prepareAssetsForEncoding]
    made, at the active version, of the request's assets resolved in order;
    the active version can express the fee-asset id; and the fee-asset
    index lies within the vector. *)
Theorem prepare_postcondition (simpleXcm : SimpleXcm)
    (transferParams : TransferParams) (w w' : Trace) (p : PreparedTransferParams) :
  prepareTransferParams simpleXcm transferParams w = (Ok p, w') ->
  sanitizeTransferParams transferParams = None
  /\ resolveRelativeLocation simpleXcm (OfLookup (tp_destination transferParams))
       = Ok (destination p)
  /\ resolveRelativeLocation simpleXcm (OfLookup (tp_beneficiary transferParams))
       = Ok (beneficiary p)
  /\ resolveRelativeLocation simpleXcm (OfLookup (tp_feeAssetId transferParams))
       = Ok (feeAssetId p)
  /\ (exists resolved,
        rmap (resolveRelativeAsset simpleXcm) (tp_assets transferParams) = Ok resolved
        /\ prepareAssetsForEncoding (xcmVersion simpleXcm) resolved = Ok (assets p))
  /\ versionSupports (xcmVersion simpleXcm) (feeAssetId p) = true
  /\ feeAssetIndex p < length (va_assets (assets p)).
Proof.
  intros Hrun. unfold prepareTransferParams in Hrun.
  apply bind_Ok_inv in Hrun as (r & w1 & Hres & Hfind).
  pose proof (resolveTransferParams_feeAssetId _ _ _ _ _ Hres) as Hid.
  unfold resolveTransferParams in Hres.
  apply bind_Ok_inv in Hres as (o & w2 & _ & Hres).
  unbind Hres. unfold ret in Hres. injection Hres as <- _.
  cbn [r_assets r_convertedFeeAssetId r_feeAssetId r_destination r_beneficiary r_origin] in *.
  unfold findFeeAssetById in Hfind.
  destruct (list_find _ _) as [[i entry] |] eqn:Hlist; [| discriminate Hfind].
  unfold ret in Hfind. injection Hfind as <- _.
  cbn [destination beneficiary feeAssetId assets feeAssetIndex].
  apply list_find_Some in Hlist as (Hat & _ & _).
  match goal with
  | Hs : check (sanitizeTransferParams _) = Ok _ |- _ =>
      destruct (sanitizeTransferParams transferParams); [discriminate Hs |]
  end.
  repeat match goal with
         | |- _ /\ _ => split
         end; try assumption; try reflexivity.
  - eexists. split; eassumption.
  - match goal with
    | Hc : convertAssetIdVersion _ _ = Ok _ |- _ =>
        unfold convertAssetIdVersion, convertLocationVersion in Hc;
        destruct (versionSupports _ _); [reflexivity | discriminate Hc]
    end.
  - now apply lookup_lt_Some in Hat.
Qed.

End PreparedFacts.

Lemma resolved_assets_in_order_witness :
  length [ {| id := Scenario.usdt; fun_ := Fungible 70 |};
           {| id := Scenario.dot; fun_ := Fungible 10 |} ]
    = length (tp_assets Scenario.request)
  /\ @rmap AssetLookup Asset (@resolveRelativeAsset Reference.util Scenario.primary)
       [ {| al_id := Named "DOT"; al_fun := Fungible 1 |};
         {| al_id := Named "KSM"; al_fun := Fungible 2 |};
         {| al_id := Named "DOT"; al_fun := Fungible 3 |} ]
     = Throw (ErrUnknownNamedLocation "KSM").
Proof.
  split.
  - exact (proj1 (proj1 (@resolved_assets_in_order Reference.util Scenario.primary
                           (tp_assets Scenario.request)) _ eq_refl)).
  - apply (proj2 (@resolved_assets_in_order Reference.util Scenario.primary _)
             [ {| al_id := Named "DOT"; al_fun := Fungible 1 |} ]
             {| al_id := Named "KSM"; al_fun := Fungible 2 |}
             [ {| al_id := Named "DOT"; al_fun := Fungible 3 |} ]).
    + reflexivity.
    + constructor; [| constructor]. eexists. reflexivity.
    + reflexivity.
Defined.

Lemma prepare_given_origin_is_local_witness :
  snd (@prepareTransferParams Reference.util Scenario.primary Samples.requestSigned []) = []
  /\ forall p,
       fst (@prepareTransferParams Reference.util Scenario.primary
              Samples.requestSigned []) = Ok p ->
       origin p = SystemSigned "0xa11ce".
Proof.
  exact (@prepare_given_origin_is_local Reference.util Scenario.primary
           Samples.requestSigned (SystemSigned "0xa11ce") [] eq_refl).
Defined.

Lemma prepare_postcondition_witness :
  @sanitizeTransferParams Reference.util Scenario.request = None
  /\ @resolveRelativeLocation Reference.util Scenario.primary
       (OfLookup (tp_destination Scenario.request)) = Ok (destination Scenario.prepared)
  /\ @resolveRelativeLocation Reference.util Scenario.primary
       (OfLookup (tp_beneficiary Scenario.request)) = Ok (beneficiary Scenario.prepared)
  /\ @resolveRelativeLocation Reference.util Scenario.primary
       (OfLookup (tp_feeAssetId Scenario.request)) = Ok (feeAssetId Scenario.prepared)
  /\ (exists resolved,
        rmap (@resolveRelativeAsset Reference.util Scenario.primary)
          (tp_assets Scenario.request) = Ok resolved
        /\ @prepareAssetsForEncoding Reference.util (xcmVersion Scenario.primary) resolved
           = Ok (assets Scenario.prepared))
  /\ @versionSupports Reference.util (xcmVersion Scenario.primary)
       (feeAssetId Scenario.prepared) = true
  /\ feeAssetIndex Scenario.prepared < length (va_assets (assets Scenario.prepared)).
Proof.
  exact (@prepare_postcondition Reference.util Scenario.primary Scenario.request []
           [ConvertLocationCall
              {| vl_version := 4;
                 vl_location := {| parents := 0;
                                   interior := [AccountId32 None "alice"] |} |}]
           Scenario.prepared eq_refl).
Defined.

(** ** More on the fee convergence loop *)

Section LoopBehaviour.

Lemma totalMissing_nonneg (errors : list HopError) :
  Forall (fun e => forall m, e = TooExpensiveFeeError m -> (0 <= m)%Z) errors ->
  (0 <= totalMissing errors)%Z.
Proof.
  induction 1 as [| e errors He _ IH]; [simpl; lia |].
  destruct e as [m | description]; [| exact IH].
  cbn [totalMissing]. specialize (He m eq_refl). lia.
Qed.

Lemma tryEstimate_nonneg (this : SimpleXcm) (o : Origin) (xt : Tx) (fee : AssetId)
    (w w' : Trace) (r : FeeEstimate) :
  (forall n o' t f,
     match estimateExtrinsicFees (api this) n o' t f with
     | Estimated v => (0 <= v)%Z
     | ThrowsFeeEstimationErrors errors =>
         Forall (fun e => forall m, e = TooExpensiveFeeError m -> (0 <= m)%Z) errors
     | ThrowsOther _ => True
     end) ->
  tryEstimateExtrinsicXcmFees this o xt fee w = (Ok r, w') ->
  match r with
  | EstValue v => (0 <= v)%Z
  | EstError m => (0 <= m)%Z
  end.
Proof.
  intros Hest. specialize (Hest (estimateCalls w) o xt fee).
  unfold tryEstimateExtrinsicXcmFees.
  destruct (estimateExtrinsicFees (api this) (estimateCalls w) o xt fee)
    as [v | errors | e]; [now intros [= <- _] | | discriminate].
  destruct (0 <? length (tooExpensiveErrors errors))%nat; [| discriminate].
  intros [= <- _]. rewrite totalMissing_fold. now apply totalMissing_nonneg.
Qed.

Lemma asset_eta (a : Asset) (v : Z) :
  fun_ a = Fungible v -> {| id := id a; fun_ := Fungible v |} = a.
Proof. destruct a as [i f]. simpl. now intros ->. Qed.

(** X8.  The fee amount never goes down: with an estimator that reports
    no negative fee and no negative shortfall, whatever the loop does and
    however it ends (returning, throwing, or cut after any number of
    rounds), a fungible fee entry keeps its id and ends with an amount at
    least as large as the one it started with. *)
Theorem feeLoop_amount_monotone (this : SimpleXcm) (d b : VersionedLocation)
    (fuel : nat) (p : PreparedTransferParams) (w : Trace) (a : Asset) (v0 : Z) :
  (forall n o t f,
     match estimateExtrinsicFees (api this) n o t f with
     | Estimated v => (0 <= v)%Z
     | ThrowsFeeEstimationErrors errors =>
         Forall (fun e => forall m, e = TooExpensiveFeeError m -> (0 <= m)%Z) errors
     | ThrowsOther _ => True
     end) ->
  feeAnyAsset p = Some a ->
  fun_ a = Fungible v0 ->
  exists v',
    feeAnyAsset (feeLoop fuel this d b p w).1.2
      = Some {| id := id a; fun_ := Fungible v' |}
    /\ (v0 <= v')%Z.
Proof.
  intros Hest. revert p w a v0.
  induction fuel as [| fuel IH]; intros p w a v0 Ha Hfun.
  - exists v0. cbn. rewrite Ha, (asset_eta a v0 Hfun). split; [reflexivity | lia].
  - cbn [feeLoop].
    destruct (tryEstimateExtrinsicXcmFees this (origin p) (transferAssetsTx this d b p)
                (feeAssetId p) w) as [[r | e] w'] eqn:Hrun.
    + pose proof (tryEstimate_nonneg _ _ _ _ _ _ _ Hest Hrun) as Hr.
      destruct r as [value | missing].
      * unfold addToFeeFungible. rewrite Ha, Hfun. cbn.
        exists (v0 + value)%Z. split; [| lia].
        exact (feeAnyAsset_setFeeFungible p a (v0 + value) Ha).
      * rewrite Ha, Hfun.
        destruct (IH (setFeeFungible (v0 + missing) p) w'
                    {| id := id a; fun_ := Fungible (v0 + missing) |} (v0 + missing)%Z
                    (feeAnyAsset_setFeeFungible p a _ Ha) eq_refl) as (v' & Hv' & Hle).
        exists v'. split; [exact Hv' | lia].
    + exists v0. cbn. rewrite Ha, (asset_eta a v0 Hfun). split; [reflexivity | lia].
Qed.

(** X9.  The loop has no bound of its own: when every estimation reports
    the shortfall [m], no number of rounds ends it; after [fuel] rounds it
    is still running, the estimator has been called [fuel] times, and a
    fungible fee entry that started at [v0] stands at [v0 + fuel * m]. *)
Theorem feeLoop_unbounded (this : SimpleXcm) (d b : VersionedLocation)
    (p : PreparedTransferParams) (a : Asset) (v0 m : Z) (w : Trace) (fuel : nat) :
  (forall q w1,
     fst (tryEstimateExtrinsicXcmFees this (origin q) (transferAssetsTx this d b q)
            (feeAssetId q) w1) = Ok (EstError m)) ->
  feeAnyAsset p = Some a ->
  fun_ a = Fungible v0 ->
  exists w',
    feeLoop fuel this d b p w
      = (None, setFeeFungible (v0 + Z.of_nat fuel * m) p, w')
    /\ estimateCalls w' = estimateCalls w + fuel.
Proof.
  intros Hshort Ha Hfun.
  assert (Hfrom : forall v w,
            exists w',
              feeLoop fuel this d b (setFeeFungible v p) w
                = (None, setFeeFungible (v + Z.of_nat fuel * m) p, w')
              /\ estimateCalls w' = estimateCalls w + fuel);
    [| destruct (Hfrom v0 w) as (w' & Hloop & Hcalls);
       rewrite (setFeeFungible_same p a v0 Ha Hfun) in Hloop; now exists w'].
  clear Hfun v0 w.
  induction fuel as [| fuel IH]; intros v0 w.
  - exists w. split; [| lia]. cbn [feeLoop]. do 2 f_equal. f_equal. lia.
  - cbn [feeLoop].
    pose proof (Hshort (setFeeFungible v0 p) w) as Hfst.
    pose proof (tryEstimate_trace this (origin (setFeeFungible v0 p))
                  (transferAssetsTx this d b (setFeeFungible v0 p))
                  (feeAssetId (setFeeFungible v0 p)) w) as Hsnd.
    destruct (tryEstimateExtrinsicXcmFees this (origin (setFeeFungible v0 p))
                (transferAssetsTx this d b (setFeeFungible v0 p))
                (feeAssetId (setFeeFungible v0 p)) w) as [r w1].
    cbn [fst snd] in Hfst, Hsnd. subst r w1.
    rewrite (feeAnyAsset_setFeeFungible p a v0 Ha). cbn [fun_].
    rewrite setFeeFungible_twice.
    destruct (IH (v0 + m)%Z (w ++ [EstimateFeesCall (origin (setFeeFungible v0 p))
                                    (transferAssetsTx this d b (setFeeFungible v0 p))
                                    (feeAssetId (setFeeFungible v0 p))]))
      as (w' & Hloop & Hcalls).
    exists w'. split.
    + rewrite Hloop. do 2 f_equal. f_equal. lia.
    + rewrite Hcalls, estimateCalls_app. cbn. lia.
Qed.

(** X10.  With a fee entry that is not fungible the loop cannot succeed
    and changes nothing.  A reported shortfall is skipped: the round ends
    with the parameters as they were and the loop goes on from there, so
    the same candidate is estimated again; with an estimator that always
    reports a shortfall the loop is still running after any number of
    rounds, having asked about that one candidate once per round.  A
    reported fee makes the addition throw a [TypeError].  So the loop never
    returns normally and leaves the prepared parameters exactly as they
    were. *)
Theorem feeLoop_non_fungible (this : SimpleXcm) (d b : VersionedLocation)
    (p : PreparedTransferParams) (a : Asset) (instance : string)
    (fuel : nat) (w : Trace) :
  feeAnyAsset p = Some a ->
  fun_ a = NonFungible instance ->
  (feeLoop fuel this d b p w).1.2 = p
  /\ (feeLoop fuel this d b p w).1.1 <> Some (Ok tt)
  /\ (forall missing w',
        tryEstimateExtrinsicXcmFees this (origin p) (transferAssetsTx this d b p)
          (feeAssetId p) w = (Ok (EstError missing), w') ->
        feeLoop (S fuel) this d b p w = feeLoop fuel this d b p w')
  /\ (forall value w',
        tryEstimateExtrinsicXcmFees this (origin p) (transferAssetsTx this d b p)
          (feeAssetId p) w = (Ok (EstValue value), w') ->
        feeLoop (S fuel) this d b p w = (Some (Throw ErrTypeError), p, w'))
  /\ ((forall w1, exists missing,
         fst (tryEstimateExtrinsicXcmFees this (origin p) (transferAssetsTx this d b p)
                (feeAssetId p) w1) = Ok (EstError missing)) ->
      feeLoop fuel this d b p w
        = (None, p,
           w ++ replicate fuel
                  (EstimateFeesCall (origin p) (transferAssetsTx this d b p)
                     (feeAssetId p)))).
Proof.
  intros Ha Hfun. split; [| split; [| split; [| split]]].
  - revert w. induction fuel as [| fuel IH]; intros w; [reflexivity |].
    cbn [feeLoop].
    destruct (tryEstimateExtrinsicXcmFees this (origin p) (transferAssetsTx this d b p)
                (feeAssetId p) w) as [[[value | missing] | e] w']; [| | reflexivity].
    + unfold addToFeeFungible. now rewrite Ha, Hfun.
    + rewrite Ha, Hfun. apply IH.
  - revert w. induction fuel as [| fuel IH]; intros w; [discriminate |].
    cbn [feeLoop].
    destruct (tryEstimateExtrinsicXcmFees this (origin p) (transferAssetsTx this d b p)
                (feeAssetId p) w) as [[[value | missing] | e] w']; [| | discriminate].
    + unfold addToFeeFungible. rewrite Ha, Hfun. discriminate.
    + rewrite Ha, Hfun. apply IH.
  - intros missing w' Hrun. cbn [feeLoop]. rewrite Hrun. now rewrite Ha, Hfun.
  - intros value w' Hrun. cbn [feeLoop]. rewrite Hrun.
    unfold addToFeeFungible. now rewrite Ha, Hfun.
  - intros Hshort. revert w. induction fuel as [| fuel IH]; intros w.
    + cbn. now rewrite app_nil_r.
    + cbn [feeLoop].
      destruct (Hshort w) as [missing Hfst].
      pose proof (tryEstimate_trace this (origin p) (transferAssetsTx this d b p)
                    (feeAssetId p) w) as Hsnd.
      destruct (tryEstimateExtrinsicXcmFees this (origin p) (transferAssetsTx this d b p)
                  (feeAssetId p) w) as [r w'].
      cbn [fst snd] in Hfst, Hsnd. subst r w'.
      rewrite Ha, Hfun, IH. cbn [replicate]. now rewrite <- app_assoc.
Qed.

End LoopBehaviour.

Lemma feeLoop_amount_monotone_witness :
  exists v',
    feeAnyAsset (feeLoop 2 Scenario.primary Scenario.toAssetHub Scenario.toBob
                   Scenario.prepared []).1.2
      = Some {| id := Scenario.dot; fun_ := Fungible v' |}
    /\ (10 <= v')%Z.
Proof.
  apply (feeLoop_amount_monotone Scenario.primary Scenario.toAssetHub Scenario.toBob 2
           Scenario.prepared [] {| id := Scenario.dot; fun_ := Fungible 10 |} 10%Z).
  - intros n o t f. cbn. unfold Scenario.scripted.
    destruct n as [| [| [| n]]]; cbn.
    + constructor; [| constructor]. intros m [= <-]. lia.
    + constructor; [| constructor]. intros m [= <-]. lia.
    + lia.
    + destruct n; cbn; lia.
  - reflexivity.
  - reflexivity.
Defined.

Lemma feeLoop_unbounded_witness :
  exists w',
    feeLoop 50 Samples.alwaysShort Scenario.toAssetHub Scenario.toBob Scenario.prepared []
      = (None, setFeeFungible (10 + Z.of_nat 50 * 1) Scenario.prepared, w')
    /\ estimateCalls w' = estimateCalls [] + 50.
Proof.
  apply (feeLoop_unbounded Samples.alwaysShort Scenario.toAssetHub Scenario.toBob
           Scenario.prepared {| id := Scenario.dot; fun_ := Fungible 10 |} 10%Z 1%Z [] 50).
  - intros q w1. reflexivity.
  - reflexivity.
  - reflexivity.
Defined.

Lemma feeLoop_non_fungible_witness :
  (feeLoop 3 Scenario.primary Scenario.toAssetHub Scenario.toBob
     Samples.preparedNonFungible []).1.2 = Samples.preparedNonFungible
  /\ (feeLoop 3 Scenario.primary Scenario.toAssetHub Scenario.toBob
        Samples.preparedNonFungible []).1.1 <> Some (Ok tt)
  /\ feeLoop 3 Samples.alwaysShort Scenario.toAssetHub Scenario.toBob
       Samples.preparedNonFungible []
     = (None, Samples.preparedNonFungible,
        [] ++ replicate 3
                (EstimateFeesCall (origin Samples.preparedNonFungible)
                   (transferAssetsTx Samples.alwaysShort Scenario.toAssetHub
                      Scenario.toBob Samples.preparedNonFungible)
                   (feeAssetId Samples.preparedNonFungible))).
Proof.
  destruct (feeLoop_non_fungible Scenario.primary Scenario.toAssetHub Scenario.toBob
              Samples.preparedNonFungible
              {| id := Scenario.dot; fun_ := NonFungible "item-7" |} "item-7" 3 []
              eq_refl eq_refl) as (Hsame & Hnever & _).
  destruct (feeLoop_non_fungible Samples.alwaysShort Scenario.toAssetHub Scenario.toBob
              Samples.preparedNonFungible
              {| id := Scenario.dot; fun_ := NonFungible "item-7" |} "item-7" 3 []
              eq_refl eq_refl) as (_ & _ & _ & _ & Hagain).
  split; [exact Hsame | split; [exact Hnever |]].
  apply Hagain. intros w1. exists 1%Z. reflexivity.
Defined.

(** ** The pallet-xcm composition as a whole *)

Section ComposeFacts.
Context `{XcmUtil}.

Lemma feeLoop_trace (this : SimpleXcm) (d b : VersionedLocation) (fuel : nat) :
  forall (p : PreparedTransferParams) (w : Trace),
  exists ests,
    (feeLoop fuel this d b p w).2 = w ++ ests
    /\ Forall (fun e => isEstimateCall e = true) ests
    /\ ((feeLoop fuel this d b p w).1.1 = Some (Ok tt) -> ests <> []).
Proof.
  induction fuel as [| fuel IH]; intros p w.
  - exists []. cbn. rewrite app_nil_r. repeat split; [constructor | discriminate].
  - cbn [feeLoop].
    pose proof (tryEstimate_trace this (origin p) (transferAssetsTx this d b p)
                  (feeAssetId p) w) as Htrace.
    destruct (tryEstimateExtrinsicXcmFees this (origin p) (transferAssetsTx this d b p)
                (feeAssetId p) w) as [r w1].
    cbn [snd] in Htrace. subst w1.
    set (call := EstimateFeesCall (origin p) (transferAssetsTx this d b p) (feeAssetId p)).
    assert (Hone : exists ests,
              w ++ [call] = w ++ ests
              /\ Forall (fun e => isEstimateCall e = true) ests /\ ests <> []).
    { exists [call]. repeat split; [| discriminate]. constructor; [reflexivity | constructor]. }
    assert (Hrec : forall q, exists ests,
              (feeLoop fuel this d b q (w ++ [call])).2 = w ++ ests
              /\ Forall (fun e => isEstimateCall e = true) ests
              /\ ((feeLoop fuel this d b q (w ++ [call])).1.1 = Some (Ok tt) -> ests <> [])).
    { intros q. destruct (IH q (w ++ [call])) as (ests & Hw & Hall & _).
      exists (call :: ests). rewrite Hw, <- app_assoc. repeat split.
      - constructor; [reflexivity | exact Hall].
      - discriminate. }
    destruct r as [[value | missing] | e].
    + destruct (addToFeeFungible value p); cbn;
        destruct Hone as (ests & Hw & Hall & Hne); exists ests; now repeat split.
    + destruct (feeAnyAsset p) as [a |].
      * destruct (fun_ a); apply Hrec.
      * cbn. destruct Hone as (ests & Hw & Hall & Hne). exists ests. now repeat split.
    + cbn. destruct Hone as (ests & Hw & Hall & Hne). exists ests. now repeat split.
Qed.

Lemma feeLoop_success_effect (this : SimpleXcm) (d b : VersionedLocation) (fuel : nat) :
  forall (p : PreparedTransferParams) (w : Trace),
    (feeLoop fuel this d b p w).1.1 = Some (Ok tt) ->
    exists a v0 v,
      feeAnyAsset p = Some a /\ fun_ a = Fungible v0
      /\ (feeLoop fuel this d b p w).1.2 = setFeeFungible v p.
Proof.
  induction fuel as [| fuel IH]; intros p w; [discriminate |].
  cbn [feeLoop].
  destruct (tryEstimateExtrinsicXcmFees this (origin p) (transferAssetsTx this d b p)
              (feeAssetId p) w) as [[[value | missing] | e] w']; [| | discriminate].
  - unfold addToFeeFungible.
    destruct (feeAnyAsset p) as [a |] eqn:Ha; [| discriminate].
    destruct (fun_ a) as [v0 | instance] eqn:Hfun; [| discriminate].
    intros _. now exists a, v0, (v0 + value)%Z.
  - destruct (feeAnyAsset p) as [a |] eqn:Ha; [| discriminate].
    destruct (fun_ a) as [v0 | instance] eqn:Hfun.
    + intros Hok.
      destruct (IH _ _ Hok) as (a' & v1 & v & _ & _ & Hp').
      exists a, v0, v. rewrite Hp', setFeeFungible_twice. now repeat split.
    + intros Hok. destruct (IH _ _ Hok) as (a' & v1 & v & Ha' & Hfun' & Hp').
      rewrite Ha in Ha'. injection Ha' as <-. congruence.
Qed.

(** X11.  [PalletXcmBackend.composeTransfer] end to end.  If preparing
    the parameters fails, the composition fails the same way and neither
    estimates nor dry-runs anything; so it does, with the conversion error,
    when the active version cannot express the destination or the
    beneficiary.  When it returns a transaction, that transaction is the
    [transferAssets] call on the prepared destination and beneficiary at
    the active version, carrying the prepared asset vector with only the
    amount of its fungible fee entry replaced; at least one estimation was
    made; and the last thing done was the one dry run of this very
    transaction, which passed. *)
Theorem palletXcm_composition (fuel : nat) (this : SimpleXcm)
    (transferParams : TransferParams) (w : Trace) :
  (forall e w1,
     prepareTransferParams this transferParams w = (Throw e, w1) ->
     PalletXcmBackend_composeTransfer fuel this transferParams w = (Some (Throw e), w1))
  /\ (forall p w1,
        prepareTransferParams this transferParams w = (Ok p, w1) ->
        versionSupports (xcmVersion this) (destination p) = false
        \/ versionSupports (xcmVersion this) (beneficiary p) = false ->
        PalletXcmBackend_composeTransfer fuel this transferParams w
          = (Some (Throw (ErrUnsupportedAtVersion (xcmVersion this))), w1))
  /\ (forall t w',
        PalletXcmBackend_composeTransfer fuel this transferParams w = (Some (Ok t), w') ->
        exists p w1 a v0 amount ests,
          prepareTransferParams this transferParams w = (Ok p, w1)
          /\ feeAnyAsset p = Some a /\ fun_ a = Fungible v0
          /\ t = transferAssetsTx this
                   {| vl_version := xcmVersion this; vl_location := destination p |}
                   {| vl_version := xcmVersion this; vl_location := beneficiary p |}
                   (setFeeFungible amount p)
          /\ w' = w1 ++ ests ++ [DryRunCall (origin p) t]
          /\ ests <> []
          /\ Forall (fun e => isEstimateCall e = true) ests
          /\ dryRunExtrinsic (api this) (origin p) t = None).
Proof.
  unfold PalletXcmBackend_composeTransfer. split; [| split].
  - intros e w1 Hprep. unfold bind at 1. now rewrite Hprep.
  - intros p w1 Hprep Hbad. rewrite (bind_run _ _ _ _ _ Hprep).
    unfold convertLocationVersion, bind, lift.
    destruct (versionSupports (xcmVersion this) (destination p)); [| reflexivity].
    destruct Hbad as [Hbad | Hbad]; [discriminate Hbad |]. now rewrite Hbad.
  - intros t w'.
    destruct (prepareTransferParams this transferParams w) as [[p | e] w1] eqn:Hprep.
    + rewrite (bind_run _ _ _ _ _ Hprep). unfold convertLocationVersion, bind, lift, ret.
      destruct (versionSupports (xcmVersion this) (destination p)); [| discriminate].
      destruct (versionSupports (xcmVersion this) (beneficiary p)); [| discriminate].
      set (d := {| vl_version := xcmVersion this; vl_location := destination p |}).
      set (b := {| vl_version := xcmVersion this; vl_location := beneficiary p |}).
      destruct (feeLoop_trace this d b fuel p w1) as (ests & Hw2 & Hall & Hne).
      pose proof (feeLoop_success_effect this d b fuel p w1) as Heffect.
      destruct (feeLoop fuel this d b p w1) as [[[[[] | e] |] p'] w2];
        [| discriminate | discriminate].
      cbn [fst snd] in Hw2, Hne, Heffect.
      destruct (Heffect eq_refl) as (a & v0 & amount & Ha & Hfun & ->).
      change (origin (setFeeFungible amount p)) with (origin p).
      destruct (dryRunExtrinsic (api this) (origin p)
                  (transferAssetsTx this d b (setFeeFungible amount p))) eqn:Hdry;
        [discriminate |].
      intros [= <- <-]. exists p, w1, a, v0, amount, ests.
      rewrite Hw2, <- app_assoc. repeat split; try assumption. now apply Hne.
    + unfold bind at 1. rewrite Hprep. discriminate.
Qed.

End ComposeFacts.

Lemma palletXcm_composition_witness :
  exists p w1 a v0 amount ests,
    @prepareTransferParams Reference.util Scenario.primary Scenario.request [] = (Ok p, w1)
    /\ feeAnyAsset p = Some a /\ fun_ a = Fungible v0
    /\ transferAssetsTx Scenario.primary Scenario.toAssetHub Scenario.toBob
         (setFeeFungible 15 Scenario.prepared)
       = transferAssetsTx Scenario.primary
           {| vl_version := xcmVersion Scenario.primary; vl_location := destination p |}
           {| vl_version := xcmVersion Scenario.primary; vl_location := beneficiary p |}
           (setFeeFungible amount p)
    /\ (@PalletXcmBackend_composeTransfer Reference.util 3 Scenario.primary
          Scenario.request []).2
       = w1 ++ ests
            ++ [DryRunCall (origin p)
                  (transferAssetsTx Scenario.primary Scenario.toAssetHub Scenario.toBob
                     (setFeeFungible 15 Scenario.prepared))]
    /\ ests <> []
    /\ Forall (fun e => isEstimateCall e = true) ests
    /\ dryRunExtrinsic (api Scenario.primary) (origin p)
         (transferAssetsTx Scenario.primary Scenario.toAssetHub Scenario.toBob
            (setFeeFungible 15 Scenario.prepared)) = None.
Proof.
  exact (proj2 (proj2 (@palletXcm_composition Reference.util 3 Scenario.primary
                         Scenario.request []))
           (transferAssetsTx Scenario.primary Scenario.toAssetHub Scenario.toBob
              (setFeeFungible 15 Scenario.prepared)) _ eq_refl).
Defined.

(** ** The xTokens backend and the estimator's answer *)

Section XTokensAnswers.
Context `{XcmUtil}.

(** X12.  What the xTokens backend does with the estimator's answer,
    once the parameters are prepared, the beneficiary is interior, the
    combined destination converts and the chain's [xTokens] pallet has
    [transferMultiassets].  It estimates once and does not try again: a
    reported shortfall is dropped and the candidate itself, with the
    prepared amounts, is returned; a fee is added to a fungible fee entry
    and the transaction is rebuilt with that amount; an error of the
    estimator is thrown on.  No dry run is made in any of the three. *)
Theorem xTokens_single_estimate (this : SimpleXcm) (transferParams : TransferParams)
    (w w1 : Trace) (p : PreparedTransferParams) (extrinsics : list string) :
  prepareTransferParams this transferParams w = (Ok p, w1) ->
  parents (beneficiary p) = 0 ->
  tx (api this) !! "xTokens"%string = Some extrinsics ->
  "transferMultiassets"%string ∈ extrinsics ->
  let versioned :=
    {| vl_version := xcmVersion this;
       vl_location :=
         {| parents := parents (destination p);
            interior := interior (destination p) ++ interior (beneficiary p) |} |} in
  let candidate :=
    TransferMultiassets "xTokens" (assets p) (feeAssetIndex p) versioned Unlimited in
  versionSupports (xcmVersion this) (vl_location versioned) = true ->
  (forall missing w2,
     tryEstimateExtrinsicXcmFees this (origin p) candidate (feeAssetId p) w1
       = (Ok (EstError missing), w2) ->
     XTokensBackend_composeTransfer this transferParams w = (Ok candidate, w2))
  /\ (forall value w2 a v0,
        tryEstimateExtrinsicXcmFees this (origin p) candidate (feeAssetId p) w1
          = (Ok (EstValue value), w2) ->
        feeAnyAsset p = Some a -> fun_ a = Fungible v0 ->
        XTokensBackend_composeTransfer this transferParams w
          = (Ok (TransferMultiassets "xTokens"
                   (assets (setFeeFungible (v0 + value) p))
                   (feeAssetIndex p) versioned Unlimited), w2))
  /\ (forall e w2,
        tryEstimateExtrinsicXcmFees this (origin p) candidate (feeAssetId p) w1
          = (Throw e, w2) ->
        XTokensBackend_composeTransfer this transferParams w = (Throw e, w2))
  /\ (XTokensBackend_composeTransfer this transferParams w).2
       = w1 ++ [EstimateFeesCall (origin p) candidate (feeAssetId p)]
  /\ List.filter isDryRunCall (XTokensBackend_composeTransfer this transferParams w).2
       = List.filter isDryRunCall w1.
Proof.
  intros Hprep Hpar Hpallet Hin versioned candidate Hsup.
  unfold XTokensBackend_composeTransfer.
  rewrite !(bind_run _ _ _ _ _ Hprep). rewrite Hpar. cbn [Nat.eqb negb].
  unfold toJunctions, location, convertLocationVersion.
  cbn [vl_location versioned] in Hsup. rewrite Hsup. fold versioned.
  rewrite !(bind_run (lift (Ok versioned)) _ w1 w1 versioned eq_refl).
  assert (Hextrinsic : lift (extrinsicOf this "xTokens" "transferMultiassets") w1
                       = (Ok tt, w1)).
  { unfold lift, extrinsicOf. now rewrite Hpallet, bool_decide_eq_true_2. }
  rewrite !(bind_run _ _ _ _ _ Hextrinsic). fold candidate.
  assert (Htrace :
            ((let* estimatedFees :=
                tryEstimateExtrinsicXcmFees this (origin p) candidate (feeAssetId p) in
              let* preparedParams' :=
                match estimatedFees with
                | EstValue value => lift (addToFeeFungible value p)
                | EstError _ => ret p
                end in
              ret (TransferMultiassets "xTokens" (assets preparedParams')
                     (feeAssetIndex preparedParams') versioned Unlimited)) w1).2
            = w1 ++ [EstimateFeesCall (origin p) candidate (feeAssetId p)]).
  { pose proof (tryEstimate_trace this (origin p) candidate (feeAssetId p) w1) as Hsnd.
    unfold bind at 1.
    destruct (tryEstimateExtrinsicXcmFees this (origin p) candidate (feeAssetId p) w1)
      as [[[value | missing] | e] w2]; cbn [snd] in Hsnd; subst w2.
    - unfold bind, lift, ret. now destruct (addToFeeFungible value p).
    - reflexivity.
    - reflexivity. }
  split; [| split; [| split; [| split]]].
  - intros missing w2 Hest. now rewrite (bind_run _ _ _ _ _ Hest).
  - intros value w2 a v0 Hest Ha Hfun. rewrite (bind_run _ _ _ _ _ Hest).
    unfold addToFeeFungible, bind, lift, ret. now rewrite Ha, Hfun.
  - intros e w2 Hest. unfold bind at 1. now rewrite Hest.
  - exact Htrace.
  - rewrite Htrace, List.filter_app. cbn. now rewrite app_nil_r.
Qed.

End XTokensAnswers.

Lemma xTokens_single_estimate_witness :
  @XTokensBackend_composeTransfer Reference.util Scenario.onXTokens Scenario.request []
    = (Ok (TransferMultiassets "xTokens" (assets Scenario.prepared) 0
             {| vl_version := 4;
                vl_location :=
                  {| parents := 1;
                     interior := [Parachain 1000; AccountId32 None "bob"] |} |}
             Unlimited),
       (@XTokensBackend_composeTransfer Reference.util Scenario.onXTokens
          Scenario.request []).2).
Proof.
  refine (proj1 (@xTokens_single_estimate Reference.util Scenario.onXTokens
                   Scenario.request []
                   [ConvertLocationCall
                      {| vl_version := 4;
                         vl_location := {| parents := 0;
                                           interior := [AccountId32 None "alice"] |} |}]
                   Scenario.prepared ["transfer"; "transferMultiassets"]%string
                   eq_refl eq_refl eq_refl _ eq_refl) 3%Z _ eq_refl).
  apply list_elem_of_further, list_elem_of_here.
Defined.

(** ** [SimpleXcm.composeTransfer] *)

Section DispatchFacts.
Context `{XcmUtil}.

Lemma transferBackend_Ok (this : SimpleXcm) (backend : Backend) :
  transferBackend this = Ok backend ->
  backend = PalletXcmBackend
  /\ exists extrinsics,
       tx (api this) !! palletXcm this = Some extrinsics
       /\ "transferAssets"%string ∈ extrinsics.
Proof.
  unfold transferBackend.
  destruct (tx (api this) !! palletXcm this) as [extrinsics |]; [| discriminate].
  destruct (bool_decide ("transferAssets"%string ∈ extrinsics)) eqn:Hhas.
  - intros [= <-]. split; [reflexivity |]. exists extrinsics.
    split; [reflexivity | now apply bool_decide_eq_true in Hhas].
  - pose proof (scanPallet_keeps_backend (pallets (api this)) (None, None)) as Hscan.
    destruct (fold_left scanPallet (pallets (api this)) (None, None)) as [palletName found].
    cbn [snd] in Hscan. subst found. discriminate.
Qed.

(** X13.  [composeTransfer] of the instance.  On a chain whose pallet-xcm
    lacks [transferAssets] it fails with the no-known-backend error before
    anything is resolved or sent, whatever the request.  A transaction it
    returns is always a [transferAssets] call on the instance's pallet-xcm,
    never an xTokens one, and the chain does expose that extrinsic. *)
Theorem composeTransfer_dispatch (fuel : nat) (this : SimpleXcm)
    (transferParams : TransferParams) (w : Trace) :
  (forall extrinsics,
     tx (api this) !! palletXcm this = Some extrinsics ->
     "transferAssets"%string ∉ extrinsics ->
     composeTransfer fuel this transferParams w
       = (Some (Throw (ErrNoTransferBackend (name (chainInfo this)))), w))
  /\ (forall t w',
        composeTransfer fuel this transferParams w = (Some (Ok t), w') ->
        (exists d b sent index,
           t = TransferAssets (palletXcm this) d b sent index Unlimited)
        /\ exists extrinsics,
             tx (api this) !! palletXcm this = Some extrinsics
             /\ "transferAssets"%string ∈ extrinsics).
Proof.
  unfold composeTransfer. split.
  - intros extrinsics Hpallet Hnot. unfold transferBackend. rewrite Hpallet.
    rewrite bool_decide_eq_false_2 by exact Hnot.
    pose proof (scanPallet_keeps_backend (pallets (api this)) (None, None)) as Hscan.
    destruct (fold_left scanPallet (pallets (api this)) (None, None)) as [palletName found].
    cbn [snd] in Hscan. now subst found.
  - intros t w'.
    destruct (transferBackend this) as [backend | e] eqn:Hbackend; [| discriminate].
    destruct (transferBackend_Ok this backend Hbackend) as [-> Hhas].
    intros Hrun. split; [| exact Hhas].
    unfold PalletXcmBackend_composeTransfer in Hrun.
    destruct (bind _ _ w) as [[[[p d] b] | e] w1]; [| discriminate Hrun].
    destruct (feeLoop fuel this d b p w1) as [[[[[] | e] |] p'] w2];
      [| discriminate Hrun | discriminate Hrun].
    destruct (dryRunExtrinsic _ _ _); [discriminate Hrun |].
    injection Hrun as <- _. unfold transferAssetsTx. now eexists _, _, _, _.
Qed.

End DispatchFacts.

Lemma composeTransfer_dispatch_witness :
  @composeTransfer Reference.util 7 Scenario.withXTokens Scenario.request []
    = (Some (Throw (ErrNoTransferBackend "Unique")), []).
Proof.
  apply (proj1 (@composeTransfer_dispatch Reference.util 7 Scenario.withXTokens
                  Scenario.request []) ["send"%string]).
  - reflexivity.
  - intros Hin. apply list_elem_of_In in Hin. destruct Hin as [Heq | []]. discriminate Heq.
Defined.

(** ** The two resolvers side by side *)

Section ResolversAgree.
Context `{XcmUtil}.

(** X14.  [resolveRelativeLocation] and [resolveUniversalLocation] tell
    the same story about a name and about a bare interior location: when
    the former answers a relative location, the latter answers what that
    relative location denotes from the calling chain (for an interior
    location, the interior location itself); when the former fails, the
    latter fails with the same error.  The conversions between the two
    forms are those modelled from the specification. *)
Theorem resolvers_agree (this : SimpleXcm) :
  (forall key l,
     resolveRelativeLocation this (OfLookup (Named key)) = Ok l ->
     resolveUniversalLocation this (InteriorNamed key)
       = relativeLocationToUniversal l (ci_universalLocation (chainInfo this)))
  /\ (forall key e,
        resolveRelativeLocation this (OfLookup (Named key)) = Throw e ->
        resolveUniversalLocation this (InteriorNamed key) = Throw e)
  /\ (forall i l,
        resolveRelativeLocation this (OfInterior i) = Ok l ->
        resolveUniversalLocation this (InteriorGiven i) = Ok i
        /\ relativeLocationToUniversal l (ci_universalLocation (chainInfo this)) = Ok i)
  /\ (forall i e,
        resolveRelativeLocation this (OfInterior i) = Throw e ->
        resolveUniversalLocation this (InteriorGiven i) = Throw e).
Proof.
  unfold resolveRelativeLocation, resolveUniversalLocation.
  split; [| split; [| split]].
  - intros key l.
    destruct (universalLocation (registry this) key) as [universal |].
    + intros [= <-]. now rewrite relative_then_universal.
    + destruct (relativeLocation (registry this) key) as [relative |];
        [now intros [= <-] | discriminate].
  - intros key e.
    destruct (universalLocation (registry this) key) as [universal |]; [discriminate |].
    destruct (relativeLocation (registry this) key) as [relative |];
      [discriminate | now intros [= <-]].
  - intros i l.
    destruct (sanitizeInterior i) as [e |]; [discriminate |]. cbn.
    intros [= <-]. split; [reflexivity | apply relative_then_universal].
  - intros i e. destruct (sanitizeInterior i) as [e' |]; [| discriminate].
    cbn. now intros [= <-].
Qed.

End ResolversAgree.

Lemma resolvers_agree_witness :
  @resolveUniversalLocation Reference.util Scenario.primary (InteriorNamed "AssetHub")
    = relativeLocationToUniversal {| parents := 1; interior := [Parachain 1000] |}
        (ci_universalLocation (chainInfo Scenario.primary))
  /\ @resolveUniversalLocation Reference.util Scenario.primary (InteriorNamed "Alice")
       = Ok [Scenario.polkadot; Parachain 2037; AccountId32 None "alice"].
Proof.
  split.
  - exact (proj1 (@resolvers_agree Reference.util Scenario.primary) "AssetHub"%string
             {| parents := 1; interior := [Parachain 1000] |} eq_refl).
  - exact (proj1 (@resolvers_agree Reference.util Scenario.primary) "Alice"%string
             {| parents := 0; interior := [AccountId32 None "alice"] |} eq_refl).
Defined.

(** ** [adjustedFungible] *)

Section AdjustedFacts.
Context `{XcmUtil} `{CurrencyLookup}.
Import Js Amount.
Local Open Scope Z_scope.

Lemma convertFungibleAmount_Ok_inv (amount : string) (decimals value : Z) :
  convertFungibleAmount amount decimals = Ok value ->
  0 <= decimals <= 38
  /\ exists i rest f,
       amount = (i ++ rest)%string /\ allDigits i = true /\ fractionOf rest f
       /\ Z.of_nat (String.length f) <= decimals
       /\ value = digitsValueFrom 0 (i ++ f) * 10 ^ (decimals - Z.of_nat (String.length f)).
Proof.
  unfold convertFungibleAmount.
  destruct (numberRegEx_test amount) eqn:Hre; [| discriminate]. cbn [negb].
  destruct (numberRegEx_shape _ Hre) as (i & rest & f & -> & _ & Hi & Hf).
  destruct (split_shape i rest f Hi Hf) as [-> ->].
  destruct (negb (isSafeInteger decimals) || (decimals <? 0) || (38 <? decimals)) eqn:Hd;
    [discriminate |].
  apply orb_false_elim in Hd as [Hd Hbig]. apply orb_false_elim in Hd as [_ Hneg].
  apply Z.ltb_ge in Hneg, Hbig.
  unfold padEnd. rewrite length_append, length_repeatChar.
  destruct (Z.gtb_spec (Z.of_nat (String.length f + (Z.to_nat decimals - String.length f)))
              decimals) as [_ | Hlen]; [discriminate |].
  pose proof (fractionOf_allDigits rest f Hf) as Hf'.
  unfold BigInt. rewrite bigIntAcc_allDigits
    by (rewrite !allDigits_append, Hi, Hf', allDigits_zeros; reflexivity).
  intros [= <-]. split; [lia |]. exists i, rest, f.
  repeat split; try assumption; [lia |].
  rewrite !digitsValueFrom_append, digitsValueFrom_zeros. do 2 f_equal. lia.
Qed.

Lemma digits_scaled (i rest f : string) (decimals : Z) :
  allDigits i = true -> fractionOf rest f ->
  Z.of_nat (String.length f) <= decimals ->
  (inject_Z (digitsValueFrom 0 (i ++ f) * 10 ^ (decimals - Z.of_nat (String.length f)))
     == numeralValue (i ++ rest) * inject_Z (10 ^ decimals))%Q.
Proof.
  intros Hi Hf Hlen. unfold numeralValue.
  rewrite (numeralValueFrom_digits i rest f 0 Hi Hf).
  rewrite digitsValueFrom_append, (digitsValueFrom_shift f (digitsValueFrom 0 i)).
  set (n := Z.of_nat (String.length f)) in *.
  replace (10 ^ decimals) with (10 ^ n * 10 ^ (decimals - n))
    by (rewrite <- Z.pow_add_r by lia; f_equal; lia).
  rewrite !inject_Z_mult, inject_Z_plus, !inject_Z_mult.
  rewrite <- (fractionValue_scaled f). fold n. ring.
Qed.

(** X15.  What [adjustedFungible] returns: the asset id it was given,
    untouched, with a fungible amount that is not negative and equals the
    number the amount string denotes multiplied by ten to the power of the
    decimals the registry gives for that currency, which lie in 0..38; and
    resolving the returned lookup as an asset keeps that amount. *)
Theorem adjustedFungible_result (this : SimpleXcm) (assetId : Lookup)
    (amount : string) (asset : AssetLookup) :
  adjustedFungible this assetId amount = Ok asset ->
  al_id asset = assetId
  /\ exists decimals value,
       currencyDecimals this assetId = Ok decimals
       /\ 0 <= decimals <= 38
       /\ al_fun asset = Fungible value
       /\ 0 <= value
       /\ (inject_Z value == numeralValue amount * inject_Z (10 ^ decimals))%Q
       /\ forall l,
            resolveRelativeLocation this (OfLookup assetId) = Ok l ->
            resolveRelativeAsset this asset = Ok {| id := l; fun_ := Fungible value |}.
Proof.
  unfold adjustedFungible.
  destruct (check _) as [[] | e]; [| discriminate]. cbn [rbind].
  destruct (currencyDecimals this assetId) as [decimals | e]; [| discriminate].
  cbn [rbind].
  destruct (convertFungibleAmount amount decimals) as [value | e] eqn:Hconv;
    [| discriminate].
  cbn [rbind]. intros [= <-]. split; [reflexivity |].
  destruct (convertFungibleAmount_Ok_inv _ _ _ Hconv)
    as (Hd & i & rest & f & -> & Hi & Hf & Hlen & ->).
  exists decimals. eexists. split; [reflexivity |]. split; [exact Hd |].
  split; [reflexivity |]. split; [| split].
  - apply Z.mul_nonneg_nonneg; [| apply Z.pow_nonneg; lia].
    apply digitsValueFrom_nonneg; [lia |].
    now rewrite allDigits_append, Hi, (fractionOf_allDigits rest f Hf).
  - now apply digits_scaled.
  - intros l Hl. unfold resolveRelativeAsset. cbn [al_id al_fun]. now rewrite Hl.
Qed.

End AdjustedFacts.

Lemma adjustedFungible_result_witness :
  al_id {| al_id := Named "DOT"; al_fun := Fungible 15000000000 |} = Named "DOT"
  /\ exists decimals value,
       @currencyDecimals Samples.currencies Scenario.primary (Named "DOT") = Ok decimals
       /\ (0 <= decimals <= 38)%Z
       /\ al_fun {| al_id := Named "DOT"; al_fun := Fungible 15000000000 |} = Fungible value
       /\ (0 <= value)%Z
       /\ (inject_Z value == Amount.numeralValue "1.5" * inject_Z (10 ^ decimals))%Q
       /\ forall l,
            @resolveRelativeLocation Reference.util Scenario.primary
              (OfLookup (Named "DOT")) = Ok l ->
            @resolveRelativeAsset Reference.util Scenario.primary
              {| al_id := Named "DOT"; al_fun := Fungible 15000000000 |}
              = Ok {| id := l; fun_ := Fungible value |}.
Proof.
  exact (@adjustedFungible_result Reference.util Samples.currencies Scenario.primary
           (Named "DOT") "1.5"%string
           {| al_id := Named "DOT"; al_fun := Fungible 15000000000 |} eq_refl).
Defined.

(** ** The order of the sub-failures *)

Lemma totalMissing_Permutation (errors errors' : list HopError) :
  Permutation errors errors' -> totalMissing errors = totalMissing errors'.
Proof.
  induction 1 as [| e l l' _ IH | e e' l | l l' l'' _ IH1 _ IH2].
  - reflexivity.
  - destruct e; cbn [totalMissing]; now rewrite IH.
  - destruct e, e'; cbn [totalMissing]; lia.
  - now rewrite IH1.
Qed.

(** X16.  The shortfall that [tryEstimateExtrinsicXcmFees] reports does
    not depend on the order in which the estimator lists the sub-failures:
    two aggregates that hold the same sub-failures, one of them at least
    too expensive, give the same recoverable shortfall. *)
Theorem tryEstimate_order_independent (this this' : SimpleXcm) (o : Origin) (xt : Tx)
    (fee : AssetId) (w : Trace) (errors errors' : list HopError) :
  estimateExtrinsicFees (api this) (estimateCalls w) o xt fee
    = ThrowsFeeEstimationErrors errors ->
  estimateExtrinsicFees (api this') (estimateCalls w) o xt fee
    = ThrowsFeeEstimationErrors errors' ->
  Permutation errors errors' ->
  Exists isTooExpensive errors ->
  tryEstimateExtrinsicXcmFees this o xt fee w
    = (Ok (EstError (totalMissing errors)), w ++ [EstimateFeesCall o xt fee])
  /\ tryEstimateExtrinsicXcmFees this' o xt fee w
     = tryEstimateExtrinsicXcmFees this o xt fee w.
Proof.
  intros Hthrow Hthrow' Hperm Hsome.
  assert (Hrun : forall (s : SimpleXcm) l,
            estimateExtrinsicFees (api s) (estimateCalls w) o xt fee
              = ThrowsFeeEstimationErrors l ->
            Exists isTooExpensive l ->
            tryEstimateExtrinsicXcmFees s o xt fee w
              = (Ok (EstError (totalMissing l)), w ++ [EstimateFeesCall o xt fee])).
  { intros s l Hl Hex. unfold tryEstimateExtrinsicXcmFees. rewrite Hl.
    destruct (tooExpensiveErrors l) as [| x rest] eqn:Hfiltered.
    - apply tooExpensiveErrors_nil in Hfiltered.
      apply Exists_exists in Hex as (e & Hin & He).
      rewrite Forall_forall in Hfiltered. exfalso. exact (Hfiltered e Hin He).
    - rewrite <- Hfiltered, totalMissing_fold, Hfiltered. reflexivity. }
  split; [now apply Hrun |].
  rewrite (Hrun this errors Hthrow Hsome), (Hrun this' errors' Hthrow').
  - now rewrite (totalMissing_Permutation _ _ Hperm).
  - apply Exists_exists in Hsome as (e & Hin & He). apply Exists_exists.
    exists e. split; [| exact He]. now rewrite <- Hperm.
Qed.

Lemma tryEstimate_order_independent_witness :
  let xt := TransferMultiassets "xTokens" (mkVersionedAssets 4 [])
              0 (mkVersionedLocation 4 Scenario.dot) Unlimited in
  let hops := [TooExpensiveFeeError 3; OtherHopError "hop 2"; TooExpensiveFeeError 4] in
  let hops' := [OtherHopError "hop 2"; TooExpensiveFeeError 4; TooExpensiveFeeError 3] in
  tryEstimateExtrinsicXcmFees
    (Scenario.connected (Scenario.chain [] [] [ThrowsFeeEstimationErrors hops]))
    (SystemSigned "0xa11ce") xt Scenario.dot []
    = (Ok (EstError (totalMissing hops)),
       [] ++ [EstimateFeesCall (SystemSigned "0xa11ce") xt Scenario.dot])
  /\ tryEstimateExtrinsicXcmFees
       (Scenario.connected (Scenario.chain [] [] [ThrowsFeeEstimationErrors hops']))
       (SystemSigned "0xa11ce") xt Scenario.dot []
     = tryEstimateExtrinsicXcmFees
         (Scenario.connected (Scenario.chain [] [] [ThrowsFeeEstimationErrors hops]))
         (SystemSigned "0xa11ce") xt Scenario.dot [].
Proof.
  intros xt hops hops'.
  apply (tryEstimate_order_independent
           (Scenario.connected (Scenario.chain [] [] [ThrowsFeeEstimationErrors hops]))
           (Scenario.connected (Scenario.chain [] [] [ThrowsFeeEstimationErrors hops']))
           (SystemSigned "0xa11ce") xt Scenario.dot [] hops hops' eq_refl eq_refl).
  - unfold hops, hops'.
    apply (Permutation_cons_app [OtherHopError "hop 2"; TooExpensiveFeeError 4] []).
    reflexivity.
  - apply Exists_cons_hd. now exists 3%Z.
Defined.

(** ** A named origin *)

Section NamedOrigin.
Context `{XcmUtil}.

(** X17.  Parameters prepared for a request whose origin is a name: the
    origin is the signed account that the chain's location-to-account API
    answered for the location the name resolves to, and reaching it took
    exactly one network interaction, that call, made with the location
    wrapped as version 4. *)
Theorem prepare_named_origin (simpleXcm : SimpleXcm) (transferParams : TransferParams)
    (key : string) (w w' : Trace) (p : PreparedTransferParams) :
  tp_origin transferParams = OriginNamed key ->
  prepareTransferParams simpleXcm transferParams w = (Ok p, w') ->
  exists convertLocation l account,
    locationToAccountApi (api simpleXcm) = Some convertLocation
    /\ resolveRelativeLocation simpleXcm (OfLookup (Named key)) = Ok l
    /\ convertLocation {| vl_version := 4; vl_location := l |} = inl account
    /\ origin p = SystemSigned account
    /\ w' = w ++ [ConvertLocationCall {| vl_version := 4; vl_location := l |}].
Proof.
  intros Hkey Hrun.
  pose proof (prepareTransferParams_trace simpleXcm transferParams w) as Htrace.
  pose proof (resolveTransferParams_after_origin simpleXcm transferParams w) as Hafter.
  rewrite Hkey in Hafter. rewrite Hrun, Hafter in Htrace. cbn [snd] in Htrace.
  unfold prepareTransferParams in Hrun.
  apply bind_Ok_inv in Hrun as (r & w1 & Hres & Hfind).
  unfold resolveTransferParams in Hres. rewrite Hkey in Hres.
  apply bind_Ok_inv in Hres as (o & w2 & Horigin & Hres).
  apply bind_Ok_inv in Horigin as (account & w3 & Haccount & Hret).
  unfold ret in Hret. injection Hret as <- <-.
  rewrite Haccount in Htrace. cbn [snd] in Htrace. subst w3.
  unfold locationToAccountId in Haccount.
  destruct (locationToAccountApi (api simpleXcm)) as [convertLocation |] eqn:Hapi;
    [| discriminate Haccount].
  unfold bind at 1, lift at 1 in Haccount.
  destruct (resolveRelativeLocation simpleXcm (OfLookup (Named key))) as [l | e] eqn:Hl;
    [| discriminate Haccount].
  unfold locationToAccountId_location in Haccount. rewrite Hapi in Haccount.
  unfold bind, lift, emit, ret, throw in Haccount.
  destruct (check (sanitizeLookup l)); [| discriminate Haccount].
  destruct (convertLocation _) as [answer | err] eqn:Hanswer; [| discriminate Haccount].
  injection Haccount as <- <-.
  assert (Horig : origin p = r_origin r).
  { destruct (findFeeAssetById _ _) as [[? ?] |]; [| discriminate Hfind].
    unfold ret in Hfind. now injection Hfind as <- _. }
  assert (Hr : r_origin r = SystemSigned answer).
  { clear Hfind Horig.
    repeat match type of Hres with
           | bind _ _ _ = (Ok _, _) =>
               let a := fresh "a" in
               let w4 := fresh "w" in
               let Hstep := fresh "Hstep" in
               apply bind_Ok_inv in Hres as (a & w4 & Hstep & Hres)
           end.
    unfold ret in Hres. now injection Hres as <- _. }
  exists convertLocation, l, answer. rewrite Horig, Hr. now repeat split.
Qed.

End NamedOrigin.

Lemma prepare_named_origin_witness :
  exists convertLocation l account,
    locationToAccountApi (api Scenario.primary) = Some convertLocation
    /\ @resolveRelativeLocation Reference.util Scenario.primary
         (OfLookup (Named "Alice")) = Ok l
    /\ convertLocation {| vl_version := 4; vl_location := l |} = inl account
    /\ origin Scenario.prepared = SystemSigned account
    /\ [ConvertLocationCall
          {| vl_version := 4;
             vl_location := {| parents := 0; interior := [AccountId32 None "alice"] |} |}]
       = [] ++ [ConvertLocationCall {| vl_version := 4; vl_location := l |}].
Proof.
  exact (@prepare_named_origin Reference.util Scenario.primary Scenario.request
           "Alice"%string [] _ Scenario.prepared eq_refl eq_refl).
Defined.
